(** * The cyclical TSDF buffer of pcl::gpu (kinfu_large_scale)

    A shallow embedding of [pcl::gpu::CyclicalBuffer]
    (gpu/kinfu_large_scale/include/pcl/gpu/kinfu_large_scale/cyclical_buffer.h)
    and the properties of its ring-origin bookkeeping.

    Layout of the development:
    - [Fp]            IEEE 754 values of the two formats the class mixes;
    - vectors, [PtrStep], [tsdf_buffer], [CyclicalBuffer]: the data;
    - the inline member functions of the header, one definition each;
    - [ShiftPlanner]  the offset computation, whose body is not in the header;
    - the theorems. *)

From Stdlib Require Import ZArith Lia List Bool QArith Qround Qabs SpecFloat.
From Stdlib Require Strings.Byte.
Import ListNotations.

Local Open Scope Z_scope.

(** ** Floating-point values

    [double] members and parameters are binary64 values, the [.f] literals
    and the [float] return type are binary32.  Both are [spec_float]s of the
    Standard Library; an implicit conversion rounds to nearest, ties to
    even, in the destination format. *)

Module Fp.

Definition double := spec_float.
Definition float := spec_float.

Definition float_prec : Z := 24.
Definition float_emax : Z := 128.
Definition double_prec : Z := 53.
Definition double_emax : Z := 1024.

Definition is_float (v : spec_float) : Prop :=
  valid_binary float_prec float_emax v = true.
Definition is_double (v : spec_float) : Prop :=
  valid_binary double_prec double_emax v = true.

(** Rounding of a value to a format given by precision and exponent bound. *)
Definition round_to (prec emax : Z) (v : spec_float) : spec_float :=
  match v with
  | S754_finite s m e => binary_round prec emax s m e
  | other => other
  end.

(** [double] to [float]: the narrowing conversion. *)
Definition double_to_float (v : double) : float :=
  round_to float_prec float_emax v.

(** [float] to [double]: the widening conversion. *)
Definition float_to_double (v : float) : double :=
  round_to double_prec double_emax v.

(** [int] to [float] and to [double]. *)
Definition int_to_float (n : Z) : float :=
  binary_normalize float_prec float_emax n 0 false.
Definition int_to_double (n : Z) : double :=
  binary_normalize double_prec double_emax n 0 false.

(** The literal [0.f]. *)
Definition zero_f : float := S754_zero false.

Definition fmul (a b : float) : float := SFmul float_prec float_emax a b.
Definition fdiv (a b : float) : float := SFdiv float_prec float_emax a b.

(** Sign tests on a value, used for configuration checks. *)
Definition non_positive (v : spec_float) : bool :=
  match v with
  | S754_zero _ => true
  | S754_finite s _ _ => s
  | S754_infinity s => s
  | S754_nan => false
  end.

End Fp.

(** ** Vectors

    The three-component structs of the buffer ([.x], [.y], [.z]). *)

Record vec3 (A : Type) : Type := mk_vec3 { x : A; y : A; z : A }.
Arguments mk_vec3 {A} _ _ _.
Arguments x {A} _.
Arguments y {A} _.
Arguments z {A} _.

Definition int3 : Type := vec3 Z.
Definition float3 : Type := vec3 Fp.float.

Definition PointXYZ : Type := vec3 Fp.float.
Definition PointXYZI : Type := (vec3 Fp.float * Fp.float)%type.

(** ** Device memory *)

(** An address, counted in elements of the voxel type ([short2]). *)
Definition address : Type := Z.

(** Modelled from the spec: [PtrStep] (pcl/gpu/containers) is declared
    outside this header.  Following the addressing contract
    "base + rowStride * row + column", [data] is the address of the first
    element and [step] the distance, in elements, between the starts of two
    consecutive rows. *)
Record PtrStep : Type := mk_PtrStep { data : address; step : Z }.

(** Modelled from the spec: [PtrStep::ptr] is defined outside this header.
    [p.ptr (row)] is the address of the first element of a row,
    [base + rowStride * row]. *)
Definition ptr (p : PtrStep) (row : Z) : address := data p + step p * row.

(** [&(rowptr[col])]. *)
Definition elem (rowptr : address) (col : Z) : address := rowptr + col.

(** Modelled from the spec: [TsdfVolume] (tsdf_volume.h) is declared
    outside this header; of the volume store only the addressing of its
    voxel array is used here. *)
Record TsdfVolume : Type := mk_TsdfVolume { volume_ : PtrStep }.

(** Modelled from the spec: [TsdfVolume::data] is defined outside this
    header.  [tsdf_volume->data ()] is the voxel array of the store. *)
Definition TsdfVolume_data (v : TsdfVolume) : PtrStep := volume_ v.

(** ** The buffer structure *)

(** Modelled from the spec: [tsdf_buffer] (tsdf_buffer.h) is declared
    outside this header, which only reads and writes its fields.  The
    field types follow the data model: the voxel counts and both grid
    origins are integers (the global origin an unbounded one, without
    wraparound), the metric origin and the volume size are floating-point
    triples, the three memory fields are addresses. *)
Record tsdf_buffer : Type := mk_tsdf_buffer {
  tsdf_memory_start : address;
  tsdf_memory_end : address;
  tsdf_rolling_buff_origin : address;
  origin_GRID : int3;
  origin_GRID_global : int3;
  origin_metric : float3;
  volume_size : float3;
  voxels_size : int3
}.

(** ** The class *)

Record CyclicalBuffer : Type := mk_CyclicalBuffer {
  cloud_buffer_device_xyz_ : list PointXYZ;
  cloud_buffer_device_intensities_ : list Fp.float;
  distance_threshold_ : Fp.double;
  world_model_ : list PointXYZI;
  buffer_ : tsdf_buffer
}.

(** Assignment to one member, the others kept. *)
Definition with_buffer (b : tsdf_buffer) (this : CyclicalBuffer) : CyclicalBuffer :=
  mk_CyclicalBuffer (cloud_buffer_device_xyz_ this)
                    (cloud_buffer_device_intensities_ this)
                    (distance_threshold_ this)
                    (world_model_ this)
                    b.

Definition with_distance_threshold (t : Fp.double) (this : CyclicalBuffer)
  : CyclicalBuffer :=
  mk_CyclicalBuffer (cloud_buffer_device_xyz_ this)
                    (cloud_buffer_device_intensities_ this)
                    t
                    (world_model_ this)
                    (buffer_ this).

(** *** Constructors

    The members the constructor bodies do not assign are default
    constructed.  The default constructor of [tsdf_buffer] is not in the
    header, so the default-constructed buffer is an argument, [buffer0]. *)

Definition construct (buffer0 : tsdf_buffer) (distance_threshold : Fp.double)
    (volume_size_x volume_size_y volume_size_z : Fp.double)
    (nb_voxels_x nb_voxels_y nb_voxels_z : Z) : CyclicalBuffer :=
  mk_CyclicalBuffer [] [] distance_threshold []
    (mk_tsdf_buffer
       (tsdf_memory_start buffer0)
       (tsdf_memory_end buffer0)
       (tsdf_rolling_buff_origin buffer0)
       (origin_GRID buffer0)
       (origin_GRID_global buffer0)
       (origin_metric buffer0)
       (mk_vec3 (Fp.double_to_float volume_size_x)
                (Fp.double_to_float volume_size_y)
                (Fp.double_to_float volume_size_z))
       (mk_vec3 nb_voxels_x nb_voxels_y nb_voxels_z)).

(** [CyclicalBuffer (distance_threshold, cube_size, nb_voxels_per_axis)]. *)
Definition CyclicalBuffer_cubic (buffer0 : tsdf_buffer)
    (distance_threshold cube_size : Fp.double) (nb_voxels_per_axis : Z)
  : CyclicalBuffer :=
  construct buffer0 distance_threshold cube_size cube_size cube_size
            nb_voxels_per_axis nb_voxels_per_axis nb_voxels_per_axis.

(** [CyclicalBuffer (distance_threshold, volume_size_x, ..., nb_voxels_z)]. *)
Definition CyclicalBuffer_non_cubic (buffer0 : tsdf_buffer)
    (distance_threshold volume_size_x volume_size_y volume_size_z : Fp.double)
    (nb_voxels_x nb_voxels_y nb_voxels_z : Z) : CyclicalBuffer :=
  construct buffer0 distance_threshold volume_size_x volume_size_y volume_size_z
            nb_voxels_x nb_voxels_y nb_voxels_z.

(** The default arguments of the cubic constructor: [3.f] and [512]. *)
Definition default_cube_size : Fp.double := Fp.int_to_double 3.
Definition default_nb_voxels_per_axis : Z := 512.

(** A constructor call either yields the object or leaves with an error.
    Neither constructor body contains a check or a [throw]. *)
Inductive construction : Type :=
| Constructed (c : CyclicalBuffer)
| ConfigurationError.

Definition new_cubic (buffer0 : tsdf_buffer)
    (distance_threshold cube_size : Fp.double) (nb_voxels_per_axis : Z)
  : construction :=
  Constructed (CyclicalBuffer_cubic buffer0 distance_threshold cube_size
                                    nb_voxels_per_axis).

Definition new_non_cubic (buffer0 : tsdf_buffer)
    (distance_threshold volume_size_x volume_size_y volume_size_z : Fp.double)
    (nb_voxels_x nb_voxels_y nb_voxels_z : Z) : construction :=
  Constructed (CyclicalBuffer_non_cubic buffer0 distance_threshold
                 volume_size_x volume_size_y volume_size_z
                 nb_voxels_x nb_voxels_y nb_voxels_z).

(** A configuration is non-positive when a size or a voxel count is. *)
Definition non_positive_configuration
    (volume_size_x volume_size_y volume_size_z : Fp.double)
    (nb_voxels_x nb_voxels_y nb_voxels_z : Z) : Prop :=
  Fp.non_positive volume_size_x = true \/
  Fp.non_positive volume_size_y = true \/
  Fp.non_positive volume_size_z = true \/
  nb_voxels_x <= 0 \/ nb_voxels_y <= 0 \/ nb_voxels_z <= 0.

(** *** Threshold accessors

    [setDistanceThreshold] also prints the new threshold; the console is
    not part of the state.  [getDistanceThreshold] returns [float] from a
    [double] member: the [return] converts. *)

Definition setDistanceThreshold (threshold : Fp.double) (this : CyclicalBuffer)
  : CyclicalBuffer :=
  with_distance_threshold threshold this.

Definition getDistanceThreshold (this : CyclicalBuffer) : Fp.float :=
  Fp.double_to_float (distance_threshold_ this).

Definition getBuffer (this : CyclicalBuffer) : tsdf_buffer := buffer_ this.

Definition getWorldModel (this : CyclicalBuffer) : list PointXYZI :=
  world_model_ this.

(** *** Memory pointers *)

(** Address of the last voxel:
    [&(ptr (voxels.y * (voxels.z - 1) + (voxels.y - 1))[voxels.x - 1])]. *)
Definition last_voxel_address (vol : PtrStep) (voxels : int3) : address :=
  elem (ptr vol (y voxels * (z voxels - 1) + (y voxels - 1))) (x voxels - 1).

(** Address of the voxel at grid position [g]:
    [&(ptr (voxels.y * g.z + g.y)[g.x])]. *)
Definition voxel_address (vol : PtrStep) (voxels : int3) (g : int3) : address :=
  elem (ptr vol (y voxels * z g + y g)) (x g).

(** Start, end and current origin of the voxel memory; nothing else is
    assigned. *)
Definition initBuffer (tsdf_volume : TsdfVolume) (this : CyclicalBuffer)
  : CyclicalBuffer :=
  let b := buffer_ this in
  let localVolume := TsdfVolume_data tsdf_volume in
  let start := elem (ptr localVolume 0) 0 in
  with_buffer
    (mk_tsdf_buffer
       start
       (last_voxel_address localVolume (voxels_size b))
       start
       (origin_GRID b)
       (origin_GRID_global b)
       (origin_metric b)
       (volume_size b)
       (voxels_size b))
    this.

(** The three origins are zeroed ([0] for the rolling origin, [0.f] for the
    other two, which is 0 in the integer global origin), then [initBuffer]
    runs. *)
Definition resetBuffer (tsdf_volume : TsdfVolume) (this : CyclicalBuffer)
  : CyclicalBuffer :=
  let b := buffer_ this in
  initBuffer tsdf_volume
    (with_buffer
       (mk_tsdf_buffer
          (tsdf_memory_start b)
          (tsdf_memory_end b)
          (tsdf_rolling_buff_origin b)
          (mk_vec3 0 0 0)
          (mk_vec3 0 0 0)
          (mk_vec3 Fp.zero_f Fp.zero_f Fp.zero_f)
          (volume_size b)
          (voxels_size b))
       this).

(** *** The commit step

    The offsets are [int] parameters; the fields they are added to are the
    integers of the buffer structure. *)

(** One axis of the rolling origin: [origin += offset], then
    [if (origin >= nb_voxels) origin -= nb_voxels;
     else if (origin < 0) origin += nb_voxels]. *)
Definition shift_axis (origin offset nb_voxels : Z) : Z :=
  let origin := origin + offset in
  if origin >=? nb_voxels then origin - nb_voxels
  else if origin <? 0 then origin + nb_voxels
  else origin.

Definition shiftOrigin (tsdf_volume : TsdfVolume)
    (offset_x offset_y offset_z : Z) (this : CyclicalBuffer) : CyclicalBuffer :=
  let b := buffer_ this in
  let voxels := voxels_size b in
  (* shift rolling origin *)
  let grid :=
    mk_vec3 (shift_axis (x (origin_GRID b)) offset_x (x voxels))
            (shift_axis (y (origin_GRID b)) offset_y (y voxels))
            (shift_axis (z (origin_GRID b)) offset_z (z voxels)) in
  (* update memory pointers *)
  let localVolume := TsdfVolume_data tsdf_volume in
  let start := elem (ptr localVolume 0) 0 in
  let last := last_voxel_address localVolume voxels in
  let rolling := voxel_address localVolume voxels grid in
  (* update global origin *)
  let global :=
    mk_vec3 (x (origin_GRID_global b) + offset_x)
            (y (origin_GRID_global b) + offset_y)
            (z (origin_GRID_global b) + offset_z) in
  with_buffer
    (mk_tsdf_buffer start last rolling grid global
                    (origin_metric b) (volume_size b) voxels)
    this.

(** ** Axes, windows and clamps *)

Inductive axis : Type := X | Y | Z_.

Definition component {A : Type} (a : axis) (v : vec3 A) : A :=
  match a with
  | X => x v
  | Y => y v
  | Z_ => z v
  end.

(** The rolling origin lies inside the grid on every axis. *)
Definition origin_in_window (b : tsdf_buffer) : Prop :=
  forall a : axis,
    0 <= component a (origin_GRID b) < component a (voxels_size b).

(** The rolling origin is the global origin reduced modulo the grid. *)
Definition origin_congruent (b : tsdf_buffer) : Prop :=
  forall a : axis,
    component a (origin_GRID b) mod component a (voxels_size b)
    = component a (origin_GRID_global b) mod component a (voxels_size b).

(** The per-axis clamp on the offsets of one shift. *)
Definition within_clamp (voxels : int3) (offset : int3) : Prop :=
  forall a : axis, Z.abs (component a offset) <= component a voxels - 1.

(** What "one correction at most" means for the result [r] of one axis. *)
Definition single_correction (origin offset nb_voxels r : Z) : Prop :=
  let sum := origin + offset in
  (0 <= sum < nb_voxels -> r = sum) /\
  (nb_voxels <= sum -> r = sum - nb_voxels) /\
  (sum < 0 -> r = sum + nb_voxels).

(** The range of a 32-bit [int]. *)
Definition int_min : Z := - 2 ^ 31.
Definition int_max : Z := 2 ^ 31 - 1.
Definition fits_int (n : Z) : Prop := int_min <= n <= int_max.

(** *** Sequences of shifts *)

Record shift_call : Type := mk_shift_call {
  call_volume : TsdfVolume;
  call_offset : int3
}.

Definition apply_shift (c : shift_call) (this : CyclicalBuffer) : CyclicalBuffer :=
  shiftOrigin (call_volume c)
              (x (call_offset c)) (y (call_offset c)) (z (call_offset c))
              this.

(** The states after each call of a sequence, in order. *)
Fixpoint shift_trace (this : CyclicalBuffer) (calls : list shift_call)
  : list CyclicalBuffer :=
  match calls with
  | [] => []
  | c :: rest =>
      let next := apply_shift c this in
      next :: shift_trace next rest
  end.

(** *** The relation the spec puts between the metric and the global origin *)

(** [origin_GRID_global * (volume_size / voxels_size)] on one axis, in
    single precision. *)
Definition global_times_voxel_size (b : tsdf_buffer) (a : axis) : Fp.float :=
  Fp.fmul (Fp.int_to_float (component a (origin_GRID_global b)))
          (Fp.fdiv (component a (volume_size b))
                   (Fp.int_to_float (component a (voxels_size b)))).

(** ** The shift planner *)

Module ShiftPlanner.

Local Open Scope Q_scope.

(** Modelled from the spec: [computeAndSetNewCubeMetricOrigin] is only
    declared in the header, its body is elsewhere.  The planner follows
    section 4.2 over exact rationals.  The voxel size of the window
    geometry: [voxelSize = volumeSizeMeters / voxelCount]. *)
Definition voxelSize (volumeSizeMeters : Q) (voxelCount : Z) : Q :=
  volumeSizeMeters / inject_Z voxelCount.

(** Modelled from the spec: the planner's body is not in the header.
    [rawOffsetVoxels = (targetPoint - windowCenterMetric) / voxelSize]. *)
Definition rawOffsetVoxels (targetPoint windowCenterMetric vsize : Q) : Q :=
  (targetPoint - windowCenterMetric) / vsize.

(** Modelled from the spec: the planner's body is not in the header.
    Rounding to the nearest integer, a half going away from zero. *)
Definition round_half_away_from_zero (q : Q) : Z :=
  if Qle_bool 0 q then Qfloor (q + (1 # 2))
  else Z.opp (Qfloor ((- q) + (1 # 2))%Q).

(** Modelled from the spec: the planner's body is not in the header.
    Offsets are clamped in magnitude to [voxelCount - 1]. *)
Definition clamp (voxelCount : Z) (offset : Z) : Z :=
  Z.max (- (voxelCount - 1)) (Z.min (voxelCount - 1) offset).

(** Modelled from the spec: the planner's body is not in the header.
    The offset of one axis before the clamp:
    [round-half-away-from-zero (rawOffsetVoxels)]. *)
Definition roundedOffset (targetPoint windowCenterMetric volumeSizeMeters : Q)
    (voxelCount : Z) : Z :=
  round_half_away_from_zero
    (rawOffsetVoxels targetPoint windowCenterMetric
                     (voxelSize volumeSizeMeters voxelCount)).

(** Modelled from the spec: the planner's body is not in the header.
    The planned offset of one axis. *)
Definition planAxis (targetPoint windowCenterMetric volumeSizeMeters : Q)
    (voxelCount : Z) : Z :=
  clamp voxelCount
        (roundedOffset targetPoint windowCenterMetric volumeSizeMeters
                       voxelCount).

(** Modelled from the spec: the planner's body is not in the header.
    [planOffsets (targetPoint) -> (offsetX, offsetY, offsetZ)], without the
    update of the metric origin the planner also performs. *)
Definition planOffsets (targetPoint windowCenterMetric volumeSizeMeters : vec3 Q)
    (voxelCount : int3) : int3 :=
  mk_vec3
    (planAxis (x targetPoint) (x windowCenterMetric) (x volumeSizeMeters)
              (x voxelCount))
    (planAxis (y targetPoint) (y windowCenterMetric) (y volumeSizeMeters)
              (y voxelCount))
    (planAxis (z targetPoint) (z windowCenterMetric) (z volumeSizeMeters)
              (z voxelCount)).

End ShiftPlanner.

(** ** A concrete window

    A cube of one metre with ten voxels per axis, on a volume store at
    address 4096 with rows of sixteen elements. *)

Definition buffer_zero : tsdf_buffer :=
  mk_tsdf_buffer 0 0 0 (mk_vec3 0 0 0) (mk_vec3 0 0 0)
                 (mk_vec3 Fp.zero_f Fp.zero_f Fp.zero_f)
                 (mk_vec3 Fp.zero_f Fp.zero_f Fp.zero_f)
                 (mk_vec3 0 0 0).

Definition store : TsdfVolume := mk_TsdfVolume (mk_PtrStep 4096 16).

Definition one_metre : Fp.double := Fp.int_to_double 1.

(** 0.5 as a [double]. *)
Definition half_metre : Fp.double := S754_finite false 4503599627370496 (-53).

(** The [double] nearest to 0.1. *)
Definition tenth_metre : Fp.double := S754_finite false 7205759403792794 (-56).

Definition window10 : CyclicalBuffer :=
  resetBuffer store (CyclicalBuffer_cubic buffer_zero half_metre one_metre 10).

(** The window after one committed shift of four voxels along X. *)
Definition window10_shifted : CyclicalBuffer := shiftOrigin store 4 0 0 window10.

(** Three shifts inside the clamp of [window10], wrapping both ways. *)
Definition sample_calls : list shift_call :=
  [ mk_shift_call store (mk_vec3 4 0 0);
    mk_shift_call store (mk_vec3 9 (-9) 3);
    mk_shift_call store (mk_vec3 (-8) 0 9) ].

(** ** Whole runs and pointer consistency *)

(** The state after a whole sequence of shifts. *)
Definition shift_all (this : CyclicalBuffer) (calls : list shift_call)
  : CyclicalBuffer :=
  fold_left (fun s c => apply_shift c s) calls this.

(** The net offset of a sequence of shifts. *)
Fixpoint net_offset (calls : list shift_call) : int3 :=
  match calls with
  | [] => mk_vec3 0 0 0
  | c :: rest =>
      mk_vec3 (x (call_offset c) + x (net_offset rest))
              (y (call_offset c) + y (net_offset rest))
              (z (call_offset c) + z (net_offset rest))
  end.

(** The logical start address is the address of the voxel at the rolling
    origin. *)
Definition rolling_consistent (vol : TsdfVolume) (b : tsdf_buffer) : Prop :=
  tsdf_rolling_buff_origin b
  = voxel_address (TsdfVolume_data vol) (voxels_size b) (origin_GRID b).

(** The logical start address lies between the first and the last voxel. *)
Definition rolling_within_bounds (b : tsdf_buffer) : Prop :=
  tsdf_memory_start b <= tsdf_rolling_buff_origin b <= tsdf_memory_end b.

(** Offsets of at most a whole window per axis. *)
Definition within_window_extent (voxels : int3) (offset : int3) : Prop :=
  forall a : axis, Z.abs (component a offset) <= component a voxels.

(** A bare object with a given geometry and rolling origin. *)
Definition window_at (voxels : int3) (grid : int3) : CyclicalBuffer :=
  mk_CyclicalBuffer [] [] Fp.zero_f []
    (mk_tsdf_buffer 0 0 0 grid (mk_vec3 0 0 0)
                    (mk_vec3 Fp.zero_f Fp.zero_f Fp.zero_f)
                    (mk_vec3 Fp.zero_f Fp.zero_f Fp.zero_f)
                    voxels).

(** * The organized point cloud codec

    A shallow embedding of the member functions of
    [pcl::io::OrganizedPointCloudCompression]
    (io/include/pcl/compression/impl/organized_pointcloud_compression.hpp):
    the frame written by [encodePointCloud], the reader of
    [decodePointCloud] with its search for the frame header, and
    [analyzeOrganizedCloud]. *)

Module OrganizedCompression.

Abbreviation byte := Byte.byte.

(** ** Outcomes

    A call returns, or it stops: on an [assert], on a read past the end of
    the point vector, or on a stream that ends before the bytes asked for.
    The source checks neither of the last two; what it does then is not
    defined, and the model stops there. *)

Inductive failure : Type :=
| AssertionFailed
| ReadPastEnd
| StreamExhausted.

Inductive result (A : Type) : Type :=
| Ok (a : A)
| Fail (f : failure).
Arguments Ok {A} a.
Arguments Fail {A} f.

Definition bind {A B : Type} (r : result A) (k : A -> result B) : result B :=
  match r with
  | Ok a => k a
  | Fail f => Fail f
  end.

(** ** Bytes and words

    The object representation of a [uint32_t] is its four bytes, least
    significant first; that of a [float] is the same for its binary32 bit
    pattern. *)

Definition byte_of_Z (n : Z) : byte :=
  match Byte.of_N (Z.to_N (n mod 256)) with
  | Some b => b
  | None => Byte.x00
  end.

Definition Z_of_byte (b : byte) : Z := Z.of_N (Byte.to_N b).

(** [static_cast<uint32_t>]. *)
Definition to_uint32 (n : Z) : Z := n mod 2 ^ 32.

Definition uint32_bytes (n : Z) : list byte :=
  [ byte_of_Z n; byte_of_Z (n / 2 ^ 8); byte_of_Z (n / 2 ^ 16);
    byte_of_Z (n / 2 ^ 24) ].

Definition uint32_of_bytes (b0 b1 b2 b3 : byte) : Z :=
  Z_of_byte b0 + 2 ^ 8 * Z_of_byte b1 + 2 ^ 16 * Z_of_byte b2
  + 2 ^ 24 * Z_of_byte b3.

Definition sign_bit (s : bool) : Z := if s then 2 ^ 31 else 0.

(** The binary32 bit pattern of a value: sign, eight exponent bits,
    twenty-three fraction bits. *)
Definition bits_of_float (v : Fp.float) : Z :=
  match v with
  | S754_zero s => sign_bit s
  | S754_infinity s => sign_bit s + 255 * 2 ^ 23
  | S754_nan => 255 * 2 ^ 23 + 2 ^ 22
  | S754_finite s m e =>
      if 2 ^ 23 <=? Zpos m
      then sign_bit s + (e + 150) * 2 ^ 23 + (Zpos m - 2 ^ 23)
      else sign_bit s + Zpos m
  end.

Definition float_of_bits (w : Z) : Fp.float :=
  let s := Z.odd (w / 2 ^ 31) in
  let biased := (w / 2 ^ 23) mod 2 ^ 8 in
  let fraction := w mod 2 ^ 23 in
  if biased =? 0 then
    match fraction with
    | Zpos m => S754_finite s m (-149)
    | _ => S754_zero s
    end
  else if biased =? 255 then
    if fraction =? 0 then S754_infinity s else S754_nan
  else
    match fraction + 2 ^ 23 with
    | Zpos m => S754_finite s m (biased - 150)
    | _ => S754_nan
    end.

Definition float_bytes (v : Fp.float) : list byte :=
  uint32_bytes (bits_of_float v).

(** A value after a trip through its four bytes. *)
Definition reload (v : Fp.float) : Fp.float :=
  float_of_bits (to_uint32 (bits_of_float v)).

(** ** Reading from a stream

    An input stream is the list of the bytes still to come; a reader
    returns its value and the stream after it. *)

Definition reader (A : Type) : Type := list byte -> result (A * list byte).

Definition ret {A : Type} (a : A) : reader A := fun s => Ok (a, s).

Definition then_ {A B : Type} (r : reader A) (k : A -> reader B) : reader B :=
  fun s =>
    match r s with
    | Ok (a, s') => k a s'
    | Fail f => Fail f
    end.

Notation "x <- r ;; k" := (then_ r (fun x => k))
  (at level 61, r at next level, right associativity).

(** [read (&c, 1)]. *)
Definition read_char : reader byte :=
  fun s =>
    match s with
    | c :: rest => Ok (c, rest)
    | [] => Fail StreamExhausted
    end.

(** [read (&word, sizeof (uint32_t))]. *)
Definition read_uint32 : reader Z :=
  fun s =>
    match s with
    | b0 :: b1 :: b2 :: b3 :: rest => Ok (uint32_of_bytes b0 b1 b2 b3, rest)
    | _ => Fail StreamExhausted
    end.

(** [read (&value, sizeof (float))]. *)
Definition read_float : reader Fp.float :=
  w <- read_uint32 ;; ret (float_of_bits w).

(** [v.resize (n); read (&v[0], n)]. *)
Definition read_block (n : Z) : reader (list byte) :=
  fun s =>
    let count := Z.to_nat n in
    if (count <=? length s)%nat
    then Ok (firstn count s, skipn count s)
    else Fail StreamExhausted.

(** ** The point type and what the codec calls

    The template parameter [PointT], with what the code reads of a point;
    [pcl::isFinite], [CompressionPointTraits], the frame header identifier,
    the cloud-image conversions and the PNG wrappers are defined outside
    this file and are the members of two classes. *)

Record PointCloud (PointT : Type) : Type := mk_PointCloud {
  width : Z;
  height : Z;
  points : list PointT
}.
Arguments mk_PointCloud {PointT} _ _ _.
Arguments width {PointT} _.
Arguments height {PointT} _.
Arguments points {PointT} _.

Class PointTraits (PointT : Type) : Type := {
  point_x : PointT -> Fp.float;
  point_y : PointT -> Fp.float;
  point_z : PointT -> Fp.float;
  isFinite : PointT -> bool;
  hasColor : bool
}.

Class Externals (PointT : Type) : Type := {
  (** [frameHeaderIdentifier_], the characters before its terminator. *)
  frameHeaderIdentifier_ : list byte;
  (** [OrganizedConversion<PointT>::convert (cloud, maxDepth,
      depthQuantization, disparityData, rgbData)]. *)
  convert_to_images :
    PointCloud PointT -> Fp.float -> Fp.float -> list Z * list byte;
  (** [encodeMonoImageToPNG (image, width, height, compressed, level)]. *)
  encodeMonoImageToPNG : list Z -> Z -> Z -> Z -> list byte;
  (** [encodeRGBImageToPNG (image, width, height, compressed, level)]. *)
  encodeRGBImageToPNG : list byte -> Z -> Z -> Z -> list byte;
  (** [decodePNGToImage], for 16-bit and for 8-bit samples. *)
  decodePNGToImage16 : list byte -> list Z;
  decodePNGToImage8 : list byte -> list byte;
  (** [OrganizedConversion<PointT>::convert (disparityData, rgbData, width,
      height, maxDepth, depthQuantization, focalLength, cloud)]. *)
  convert_to_cloud :
    list Z -> list byte -> Z -> Z -> Fp.float -> Fp.float -> Fp.float ->
    PointCloud PointT -> PointCloud PointT
}.

Section Codec.

Context {PointT : Type} {traits : PointTraits PointT} {ext : Externals PointT}.

(** ** [analyzeOrganizedCloud] *)

Definition fadd (a b : Fp.float) : Fp.float :=
  SFadd Fp.float_prec Fp.float_emax a b.

(** [maxDepth < point.z]. *)
Definition flt (a b : Fp.float) : bool := SFltb a b.

(** The values of [v] in [for (v = lo; v < hi; ++v)]. *)
Definition for_range (lo hi : Z) : list Z :=
  map (fun i => lo + Z.of_nat i) (seq 0 (Z.to_nat (hi - lo))).

(** A loop whose body may stop the call. *)
Fixpoint for_each {A S : Type} (l : list A) (body : A -> S -> result S)
    (s : S) : result S :=
  match l with
  | [] => Ok s
  | a :: rest =>
      match body a s with
      | Ok s' => for_each rest body s'
      | Fail f => Fail f
      end
  end.

(** The locals the loops update. *)
Record scan : Type := mk_scan {
  it : nat;
  maxDepth : Fp.float;
  focalLength : Fp.float
}.

(** [2.0f / (point.x / (float (x) * point.z)
            + point.y / (float (y) * point.z))]. *)
Definition focal_of (point : PointT) (x y : Z) : Fp.float :=
  Fp.fdiv (Fp.int_to_float 2)
          (fadd (Fp.fdiv (point_x point)
                         (Fp.fmul (Fp.int_to_float x) (point_z point)))
                (Fp.fdiv (point_y point)
                         (Fp.fmul (Fp.int_to_float y) (point_z point)))).

(** The body of the inner loop. *)
Definition visit (pts : list PointT) (y x : Z) (st : scan) : result scan :=
  match nth_error pts (it st) with
  | None => Fail ReadPastEnd
  | Some point =>
      let next := S (it st) in
      if isFinite point then
        if flt (maxDepth st) (point_z point)
        then Ok (mk_scan next (point_z point) (focal_of point x y))
        else Ok (mk_scan next (maxDepth st) (focalLength st))
      else Ok (mk_scan next (maxDepth st) (focalLength st))
  end.

(** The body of the two loops, on a pair of coordinates. *)
Definition visit_at (pts : list PointT) (yx : Z * Z) (st : scan) : result scan :=
  visit pts (fst yx) (snd yx) st.

(** The maximum depth and the focal length of an organized cloud.  The two
    [assert]s are compiled in: a cloud that fails one stops the call. *)
Definition analyzeOrganizedCloud (cloud_arg : PointCloud PointT)
  : result (Fp.float * Fp.float) :=
  let width := width cloud_arg in
  let height := height cloud_arg in
  let centerX := width / 2 in
  let centerY := height / 2 in
  if negb ((1 <? width) && (1 <? height)) then Fail AssertionFailed
  else if negb (width * height =? Z.of_nat (length (points cloud_arg)))
  then Fail AssertionFailed
  else
    bind
      (for_each (for_range (- centerY) centerY)
         (fun y =>
            for_each (for_range (- centerX) centerX)
                     (fun x => visit (points cloud_arg) y x))
         (mk_scan 0 Fp.zero_f Fp.zero_f))
      (fun st => Ok (maxDepth st, focalLength st)).

(** What the loops know of the points read so far. *)
Definition depth_invariant (pts : list PointT) (st : scan) : Prop :=
  (forall (i : nat) (p : PointT),
      (i < it st)%nat -> nth_error pts i = Some p -> isFinite p = true ->
      flt (maxDepth st) (point_z p) = false)
  /\
  (maxDepth st = Fp.zero_f \/
   exists (i : nat) (p : PointT),
     (i < it st)%nat /\ nth_error pts i = Some p /\ isFinite p = true /\
     maxDepth st = point_z p).

(** The number of points the loops read. *)
Definition inspected (cloud : PointCloud PointT) : nat :=
  (Z.to_nat (2 * (height cloud / 2)) * Z.to_nat (2 * (width cloud / 2)))%nat.

(** ** [encodePointCloud]

    The output stream is the list of the bytes written so far; the printed
    statistics are not part of it. *)

Definition encodePointCloud (cloud_arg : PointCloud PointT)
    (compressedDataOut_arg : list byte) (doColorEncoding : bool)
    (depthQuantization_arg : Fp.float) (pngLevel_arg : Z)
    (bShowStatistics_arg : bool) : result (list byte) :=
  let cloud_width := width cloud_arg in
  let cloud_height := height cloud_arg in
  bind (analyzeOrganizedCloud cloud_arg) (fun depth_focal =>
    let '(maxDepth, vocalLength) := depth_focal in
    let out := compressedDataOut_arg ++ frameHeaderIdentifier_ in
    let out := out ++ uint32_bytes cloud_width in
    let out := out ++ uint32_bytes cloud_height in
    let out := out ++ float_bytes maxDepth in
    let out := out ++ float_bytes vocalLength in
    let out := out ++ float_bytes depthQuantization_arg in
    let '(disparityData, rgbData) :=
      convert_to_images cloud_arg maxDepth depthQuantization_arg in
    let compressedDisparity :=
      encodeMonoImageToPNG disparityData cloud_width cloud_height
                           pngLevel_arg in
    let compressedDisparitySize :=
      to_uint32 (Z.of_nat (length compressedDisparity)) in
    let out := out ++ uint32_bytes compressedDisparitySize in
    let out := out ++ compressedDisparity in
    let compressedRGB :=
      if hasColor && doColorEncoding
      then encodeRGBImageToPNG rgbData cloud_width cloud_height pngLevel_arg
      else [] in
    let compressedRGBSize := to_uint32 (Z.of_nat (length compressedRGB)) in
    let out := out ++ uint32_bytes compressedRGBSize in
    let out := out ++ compressedRGB in
    Ok out).

(** ** [decodePointCloud] *)

(** The search for the frame header: the [while] loop, by the number of
    identifier characters matched so far. *)
Fixpoint sync_to_frame_header (headerIdPos : nat) (stream : list byte)
    {struct stream} : result (unit * list byte) :=
  if (headerIdPos <? length frameHeaderIdentifier_)%nat then
    match stream with
    | [] => Fail StreamExhausted
    | readChar :: rest =>
        if Byte.eqb readChar (nth headerIdPos frameHeaderIdentifier_ Byte.x00)
        then sync_to_frame_header (S headerIdPos) rest
        else
          sync_to_frame_header
            (if Byte.eqb (nth 0 frameHeaderIdentifier_ Byte.x00) readChar
             then 1%nat else 0%nat)
            rest
    end
  else Ok (tt, stream).

Definition decodePointCloud (compressedDataIn_arg : list byte)
    (cloud_arg : PointCloud PointT) (bShowStatistics_arg : bool)
  : result (PointCloud PointT * list byte) :=
  (_ <- sync_to_frame_header 0 ;;
   cloud_width <- read_uint32 ;;
   cloud_height <- read_uint32 ;;
   maxDepth <- read_float ;;
   vocalLength <- read_float ;;
   depthQuantization <- read_float ;;
   compressedDisparitySize <- read_uint32 ;;
   compressedDisparity <- read_block compressedDisparitySize ;;
   compressedRGBSize <- read_uint32 ;;
   compressedRGB <- read_block compressedRGBSize ;;
   let disparityData := decodePNGToImage16 compressedDisparity in
   let rgbData := decodePNGToImage8 compressedRGB in
   ret (convert_to_cloud disparityData rgbData cloud_width cloud_height
                         maxDepth depthQuantization vocalLength cloud_arg))
    compressedDataIn_arg.

End Codec.

End OrganizedCompression.

(** ** A codec to run

    Stand-ins for the functions the codec calls, on clouds of points with
    three coordinates: a five-byte identifier, depths carried as the low
    sixteen bits of their bit patterns, and a compression that only lays
    samples out as bytes. *)

Definition finite_value (v : Fp.float) : bool :=
  match v with
  | S754_nan | S754_infinity _ => false
  | _ => true
  end.

Definition sample_traits : OrganizedCompression.PointTraits PointXYZ :=
  {| OrganizedCompression.point_x := x;
     OrganizedCompression.point_y := y;
     OrganizedCompression.point_z := z;
     OrganizedCompression.isFinite :=
       fun p => finite_value (x p) && finite_value (y p) && finite_value (z p);
     OrganizedCompression.hasColor := false |}.

(** The bytes of [<PCL>]. *)
Definition sample_identifier : list Byte.byte :=
  [Byte.x3c; Byte.x50; Byte.x43; Byte.x4c; Byte.x3e].

Definition sample_externals : OrganizedCompression.Externals PointXYZ :=
  {| OrganizedCompression.frameHeaderIdentifier_ := sample_identifier;
     OrganizedCompression.convert_to_images :=
       fun cloud _ _ =>
         (map (fun p => OrganizedCompression.bits_of_float (z p) mod 2 ^ 16)
              (OrganizedCompression.points cloud),
          []);
     OrganizedCompression.encodeMonoImageToPNG :=
       fun image _ _ _ =>
         flat_map (fun v => [OrganizedCompression.byte_of_Z v;
                             OrganizedCompression.byte_of_Z (v / 2 ^ 8)])
                  image;
     OrganizedCompression.encodeRGBImageToPNG := fun image _ _ _ => image;
     OrganizedCompression.decodePNGToImage16 :=
       map OrganizedCompression.Z_of_byte;
     OrganizedCompression.decodePNGToImage8 := fun block => block;
     OrganizedCompression.convert_to_cloud :=
       fun disparity _ w h _ _ _ _ =>
         OrganizedCompression.mk_PointCloud w h
           (map (fun d => mk_vec3 Fp.zero_f Fp.zero_f
                                  (OrganizedCompression.float_of_bits d))
                disparity) |}.

Definition point_at_depth (depth : Z) : PointXYZ :=
  mk_vec3 (Fp.int_to_float 1) (Fp.int_to_float 1) (Fp.int_to_float depth).

(** Two rows of two points. *)
Definition sample_cloud : OrganizedCompression.PointCloud PointXYZ :=
  OrganizedCompression.mk_PointCloud 2 2
    [point_at_depth 1; point_at_depth 3;
     mk_vec3 S754_nan Fp.zero_f (Fp.int_to_float 9); point_at_depth 2].

(** Three rows of three points, and the same with another last point. *)
Definition odd_cloud (last : Z) : OrganizedCompression.PointCloud PointXYZ :=
  OrganizedCompression.mk_PointCloud 3 3
    [point_at_depth 1; point_at_depth 2; point_at_depth 3;
     point_at_depth 4; point_at_depth 1; point_at_depth 1;
     point_at_depth 1; point_at_depth 1; point_at_depth last].

(** * Properties *)

(** ** One axis of the rolling origin *)

Section OneAxis.

Variables origin offset nb_voxels : Z.
Hypothesis in_window : 0 <= origin < nb_voxels.
Hypothesis clamped : Z.abs offset <= nb_voxels - 1.

Lemma shift_axis_cases :
  single_correction origin offset nb_voxels (shift_axis origin offset nb_voxels).
Proof using in_window.
  clear clamped.
  unfold single_correction, shift_axis; cbv zeta.
  destruct (Z.geb_spec (origin + offset) nb_voxels);
    destruct (Z.ltb_spec (origin + offset) 0); lia.
Qed.

Lemma shift_axis_range :
  0 <= shift_axis origin offset nb_voxels < nb_voxels.
Proof using in_window clamped.
  unfold shift_axis; cbv zeta.
  destruct (Z.geb_spec (origin + offset) nb_voxels);
    destruct (Z.ltb_spec (origin + offset) 0); lia.
Qed.

Lemma shift_axis_mod :
  shift_axis origin offset nb_voxels = (origin + offset) mod nb_voxels.
Proof using in_window clamped.
  pose proof shift_axis_range as Hr.
  pose proof shift_axis_cases as (Hin & Hhigh & Hlow).
  set (r := shift_axis origin offset nb_voxels) in *.
  destruct (Z_lt_le_dec (origin + offset) 0) as [Hneg | Hpos].
  - apply Z.mod_unique_pos with (q := -1); [exact Hr | specialize (Hlow Hneg); lia].
  - destruct (Z_lt_le_dec (origin + offset) nb_voxels) as [Hsmall | Hbig].
    + apply Z.mod_unique_pos with (q := 0); [exact Hr | lia].
    + apply Z.mod_unique_pos with (q := 1); [exact Hr | specialize (Hhigh Hbig); lia].
Qed.

Lemma shift_axis_back :
  shift_axis (shift_axis origin offset nb_voxels) (- offset) nb_voxels = origin.
Proof using in_window clamped.
  unfold shift_axis; cbv zeta.
  destruct (Z.geb_spec (origin + offset) nb_voxels);
    destruct (Z.ltb_spec (origin + offset) 0);
    match goal with
    | |- context [?a + - offset >=? nb_voxels] =>
        destruct (Z.geb_spec (a + - offset) nb_voxels);
        destruct (Z.ltb_spec (a + - offset) 0)
    end; lia.
Qed.

(** With at most 2^30 voxels on the axis the two values the update
    computes, the sum and the corrected origin, fit a 32-bit [int]. *)
Lemma shift_axis_fits_int :
  nb_voxels <= 2 ^ 30 ->
  fits_int (origin + offset) /\
  fits_int (shift_axis origin offset nb_voxels).
Proof using in_window clamped.
  intros Hn. pose proof shift_axis_range as Hr.
  unfold fits_int, int_min, int_max.
  change (2 ^ 30) with 1073741824 in Hn.
  change (2 ^ 31) with 2147483648.
  lia.
Qed.

End OneAxis.

(** Congruent origins stay congruent when both move by the same offset. *)
Lemma congruent_after_offset (origin global offset nb_voxels : Z) :
  origin mod nb_voxels = global mod nb_voxels ->
  ((origin + offset) mod nb_voxels) mod nb_voxels
  = (global + offset) mod nb_voxels.
Proof.
  intros Hc.
  rewrite Zmod_mod.
  rewrite (Zplus_mod origin), (Zplus_mod global), Hc.
  reflexivity.
Qed.

(** ** What [shiftOrigin] writes, field by field *)

Lemma shiftOrigin_voxels_size vol ox oy oz this :
  voxels_size (buffer_ (shiftOrigin vol ox oy oz this))
  = voxels_size (buffer_ this).
Proof. reflexivity. Qed.

Lemma shiftOrigin_origin_GRID vol ox oy oz this (a : axis) :
  component a (origin_GRID (buffer_ (shiftOrigin vol ox oy oz this)))
  = shift_axis (component a (origin_GRID (buffer_ this)))
               (component a (mk_vec3 ox oy oz))
               (component a (voxels_size (buffer_ this))).
Proof. destruct a; reflexivity. Qed.

Lemma shiftOrigin_origin_GRID_global vol ox oy oz this (a : axis) :
  component a (origin_GRID_global (buffer_ (shiftOrigin vol ox oy oz this)))
  = component a (origin_GRID_global (buffer_ this))
    + component a (mk_vec3 ox oy oz).
Proof. destruct a; reflexivity. Qed.

Lemma vec3_ext {A : Type} (u v : vec3 A) :
  (forall a : axis, component a u = component a v) -> u = v.
Proof.
  intros H. destruct u as [ux uy uz], v as [vx vy vz].
  pose proof (H X) as Hx. pose proof (H Y) as Hy. pose proof (H Z_) as Hz.
  simpl in Hx, Hy, Hz. congruence.
Qed.

Lemma within_clamp_opp (voxels offset : int3) :
  within_clamp voxels offset ->
  within_clamp voxels (mk_vec3 (- x offset) (- y offset) (- z offset)).
Proof.
  intros H a. specialize (H a). destruct a; simpl in *; lia.
Qed.

(** One step of the wrap invariant. *)
Lemma shiftOrigin_keeps_invariant vol ox oy oz this :
  origin_in_window (buffer_ this) ->
  origin_congruent (buffer_ this) ->
  within_clamp (voxels_size (buffer_ this)) (mk_vec3 ox oy oz) ->
  origin_in_window (buffer_ (shiftOrigin vol ox oy oz this)) /\
  origin_congruent (buffer_ (shiftOrigin vol ox oy oz this)).
Proof.
  intros Hw Hc Hk. split; intros a.
  - rewrite shiftOrigin_origin_GRID, shiftOrigin_voxels_size.
    apply shift_axis_range; [apply Hw | apply Hk].
  - rewrite shiftOrigin_origin_GRID, shiftOrigin_origin_GRID_global,
      shiftOrigin_voxels_size.
    rewrite shift_axis_mod by (apply Hw || apply Hk).
    apply congruent_after_offset, Hc.
Qed.

(** A goal quantified over the axes, at a concrete window: one case per
    axis, each an arithmetic fact after evaluation. *)
Ltac on_each_axis :=
  let a := fresh "a" in
  intros a; destruct a; simpl; unfold shift_axis; simpl;
  solve [lia | reflexivity].

(** ** The wrap invariant over sequences of shifts *)

(** C1.  Start from a rolling origin that lies in [[0, voxels_size)] and
    is congruent to the global origin modulo [voxels_size] on every axis,
    and run any sequence of [shiftOrigin] calls whose offsets satisfy
    [|offset| <= voxels_size - 1] per axis.  Then after each call of the
    sequence the rolling origin ([origin_GRID]) still lies in
    [[0, voxels_size)] and is still congruent to the global origin
    ([origin_GRID_global]) modulo [voxels_size], on every axis. *)
Theorem wrap_invariant (calls : list shift_call) (this : CyclicalBuffer) :
  origin_in_window (buffer_ this) ->
  origin_congruent (buffer_ this) ->
  Forall (fun c => within_clamp (voxels_size (buffer_ this)) (call_offset c))
         calls ->
  Forall (fun after =>
            origin_in_window (buffer_ after) /\ origin_congruent (buffer_ after))
         (shift_trace this calls).
Proof.
  revert this.
  induction calls as [| c rest IH]; intros this Hw Hc Hk; simpl.
  - constructor.
  - inversion Hk as [| c' rest' Hc0 Hrest]; subst.
    assert (Hoff : call_offset c
                   = mk_vec3 (x (call_offset c)) (y (call_offset c))
                             (z (call_offset c)))
      by (destruct (call_offset c); reflexivity).
    rewrite Hoff in Hc0.
    destruct (shiftOrigin_keeps_invariant (call_volume c) _ _ _ this Hw Hc Hc0)
      as [Hw' Hc'].
    constructor.
    + split; assumption.
    + apply IH; [exact Hw' | exact Hc' |].
      unfold apply_shift. rewrite shiftOrigin_voxels_size. exact Hrest.
Qed.

Lemma wrap_invariant_witness :
  Forall (fun after =>
            origin_in_window (buffer_ after) /\ origin_congruent (buffer_ after))
         (shift_trace window10 sample_calls).
Proof.
  apply (wrap_invariant sample_calls window10).
  - on_each_axis.
  - on_each_axis.
  - repeat constructor; on_each_axis.
Defined.

(** ** The commit step on one call *)

(** C2.  On every axis [shiftOrigin] increments the global origin by the
    offset, with no condition and no wraparound; and when the rolling
    origin starts in [[0, voxels_size)] and [|offset| <= voxels_size - 1],
    the new rolling origin is [(origin + offset) mod voxels_size], obtained
    from the sum by one subtraction of [voxels_size] when the sum is too
    large, one addition when it is negative, and no correction otherwise:
    one correction suffices. *)
Theorem shiftOrigin_commit (vol : TsdfVolume) (ox oy oz : Z)
    (this : CyclicalBuffer) (a : axis) :
  let offset := component a (mk_vec3 ox oy oz) in
  let nb_voxels := component a (voxels_size (buffer_ this)) in
  let before := buffer_ this in
  let after := buffer_ (shiftOrigin vol ox oy oz this) in
  component a (origin_GRID_global after)
  = component a (origin_GRID_global before) + offset
  /\
  (origin_in_window before ->
   within_clamp (voxels_size before) (mk_vec3 ox oy oz) ->
   component a (origin_GRID after)
   = (component a (origin_GRID before) + offset) mod nb_voxels
   /\
   single_correction (component a (origin_GRID before)) offset nb_voxels
                     (component a (origin_GRID after))).
Proof.
  cbv zeta. split.
  - apply shiftOrigin_origin_GRID_global.
  - intros Hw Hk. rewrite shiftOrigin_origin_GRID. split.
    + apply shift_axis_mod; [apply Hw | apply Hk].
    + apply shift_axis_cases, Hw.
Qed.

Lemma shiftOrigin_commit_witness :
  component X (origin_GRID (buffer_ (shiftOrigin store 7 0 0 window10_shifted)))
  = (4 + 7) mod 10.
Proof.
  refine (proj1 (proj2 (shiftOrigin_commit store 7 0 0 window10_shifted X) _ _)).
  - on_each_axis.
  - on_each_axis.
Defined.

(** ** Reversibility *)

(** C5.  From a rolling origin inside [[0, voxels_size)], a shift by
    [(ox, oy, oz)] with [|offset| <= voxels_size - 1] per axis followed by
    a shift by [(-ox, -oy, -oz)] gives back the rolling origin and the
    global origin the buffer had before the first shift. *)
Theorem shiftOrigin_reversible (vol vol' : TsdfVolume) (ox oy oz : Z)
    (this : CyclicalBuffer) :
  origin_in_window (buffer_ this) ->
  within_clamp (voxels_size (buffer_ this)) (mk_vec3 ox oy oz) ->
  let back :=
    shiftOrigin vol' (- ox) (- oy) (- oz) (shiftOrigin vol ox oy oz this) in
  origin_GRID (buffer_ back) = origin_GRID (buffer_ this) /\
  origin_GRID_global (buffer_ back) = origin_GRID_global (buffer_ this).
Proof.
  intros Hw Hk back. subst back. split; apply vec3_ext; intros a.
  - rewrite !shiftOrigin_origin_GRID, shiftOrigin_voxels_size.
    replace (component a (mk_vec3 (- ox) (- oy) (- oz)))
      with (- component a (mk_vec3 ox oy oz)) by (destruct a; reflexivity).
    apply shift_axis_back; [apply Hw | apply Hk].
  - rewrite !shiftOrigin_origin_GRID_global.
    destruct a; simpl; lia.
Qed.

Lemma shiftOrigin_reversible_witness :
  origin_GRID (buffer_ (shiftOrigin store (- 9) (- -9) (- 3)
                          (shiftOrigin store 9 (-9) 3 window10_shifted)))
  = mk_vec3 4 0 0
  /\
  origin_GRID_global (buffer_ (shiftOrigin store (- 9) (- -9) (- 3)
                                 (shiftOrigin store 9 (-9) 3 window10_shifted)))
  = mk_vec3 4 0 0.
Proof.
  apply (shiftOrigin_reversible store store 9 (-9) 3 window10_shifted).
  - on_each_axis.
  - on_each_axis.
Defined.

(** ** The logical start address *)

(** C6.  After [shiftOrigin] the logical start address
    ([tsdf_rolling_buff_origin]) is
    [base + rowStride * (voxels_size.y * origin_GRID.z + origin_GRID.y)
     + origin_GRID.x], row-major with x fastest, then y, then z, where
    [origin_GRID] is the rolling origin after the commit, that is the old
    one moved by the offsets of this call. *)
Theorem shiftOrigin_rolling_address (vol : TsdfVolume) (ox oy oz : Z)
    (this : CyclicalBuffer) :
  let before := buffer_ this in
  let after := buffer_ (shiftOrigin vol ox oy oz this) in
  let base := data (TsdfVolume_data vol) in
  let rowStride := step (TsdfVolume_data vol) in
  tsdf_rolling_buff_origin after
  = base
    + rowStride * (y (voxels_size after) * z (origin_GRID after)
                   + y (origin_GRID after))
    + x (origin_GRID after)
  /\
  origin_GRID after
  = mk_vec3 (shift_axis (x (origin_GRID before)) ox (x (voxels_size before)))
            (shift_axis (y (origin_GRID before)) oy (y (voxels_size before)))
            (shift_axis (z (origin_GRID before)) oz (z (voxels_size before))).
Proof.
  cbv zeta. split; reflexivity.
Qed.

(** ** The frame of [shiftOrigin] *)

(** C9.  [shiftOrigin] writes only [origin_GRID], [origin_GRID_global] and
    the three memory pointers: the window geometry ([volume_size],
    [voxels_size]), [origin_metric] and [distance_threshold_] are the same
    after the call as before, whatever the offsets, and so are the
    remaining members of the class. *)
Theorem shiftOrigin_frame (vol : TsdfVolume) (ox oy oz : Z)
    (this : CyclicalBuffer) :
  let after := shiftOrigin vol ox oy oz this in
  volume_size (buffer_ after) = volume_size (buffer_ this) /\
  voxels_size (buffer_ after) = voxels_size (buffer_ this) /\
  origin_metric (buffer_ after) = origin_metric (buffer_ this) /\
  distance_threshold_ after = distance_threshold_ this /\
  after =
    mk_CyclicalBuffer
      (cloud_buffer_device_xyz_ this)
      (cloud_buffer_device_intensities_ this)
      (distance_threshold_ this)
      (world_model_ this)
      (mk_tsdf_buffer
         (tsdf_memory_start (buffer_ after))
         (tsdf_memory_end (buffer_ after))
         (tsdf_rolling_buff_origin (buffer_ after))
         (origin_GRID (buffer_ after))
         (origin_GRID_global (buffer_ after))
         (origin_metric (buffer_ this))
         (volume_size (buffer_ this))
         (voxels_size (buffer_ this))).
Proof.
  cbv zeta. repeat split.
Qed.

(** ** The metric origin and the commit step *)

(** C3, as the spec states it, fails: after [shiftOrigin store 4 0 0] on the
    freshly reset ten-voxel window the global origin is 4 on X, so
    [origin_GRID_global * (volume_size / voxels_size)] is 0.4f, while
    [origin_metric.x] is still the 0 that [resetBuffer] wrote. *)
Lemma shiftOrigin_metric_not_recomputed :
  let after := buffer_ (shiftOrigin store 4 0 0 window10) in
  component X (origin_GRID_global after) = 4 /\
  component X (origin_metric after) = Fp.zero_f /\
  global_times_voxel_size after X = S754_finite false 13421773 (-25) /\
  component X (origin_metric after) <> global_times_voxel_size after X.
Proof.
  cbv zeta. repeat split.
  vm_compute. discriminate.
Qed.

(** C3, amended.  [shiftOrigin] does not assign [origin_metric]: on every
    axis the metric origin after the call is the metric origin before it,
    whatever the offsets and the new global origin. *)
Theorem shiftOrigin_keeps_origin_metric (vol : TsdfVolume) (ox oy oz : Z)
    (this : CyclicalBuffer) (a : axis) :
  component a (origin_metric (buffer_ (shiftOrigin vol ox oy oz this)))
  = component a (origin_metric (buffer_ this)).
Proof.
  destruct a; reflexivity.
Qed.

(** ** Initialisation and reset *)

(** C4, as the spec states it, fails for [initBuffer]: called on a window
    whose rolling origin is (4, 0, 0), it leaves that origin in place. *)
Lemma initBuffer_keeps_rolling_origin :
  origin_GRID (buffer_ window10_shifted) = mk_vec3 4 0 0 /\
  origin_GRID (buffer_ (initBuffer store window10_shifted)) = mk_vec3 4 0 0 /\
  origin_GRID (buffer_ (initBuffer store window10_shifted)) <> mk_vec3 0 0 0.
Proof.
  repeat split. vm_compute. discriminate.
Qed.

(** C4, amended.  [initBuffer] binds the memory bounds to the given volume
    store (start: its first voxel; end: its last voxel, from the voxel
    counts) and sets the logical start address to the start address; it
    leaves the rolling origin, the global origin and the metric origin as
    they were.  [resetBuffer] binds the same bounds and sets the rolling
    origin, the global origin and the metric origin to zero. *)
Theorem initBuffer_resetBuffer_effect (vol : TsdfVolume) (this : CyclicalBuffer) :
  let before := buffer_ this in
  let init := buffer_ (initBuffer vol this) in
  let reset := buffer_ (resetBuffer vol this) in
  let base := data (TsdfVolume_data vol) in
  let rowStride := step (TsdfVolume_data vol) in
  let voxels := voxels_size before in
  let last :=
    base + rowStride * (y voxels * (z voxels - 1) + (y voxels - 1))
    + (x voxels - 1) in
  (tsdf_memory_start init = base /\
   tsdf_memory_end init = last /\
   tsdf_rolling_buff_origin init = base /\
   origin_GRID init = origin_GRID before /\
   origin_GRID_global init = origin_GRID_global before /\
   origin_metric init = origin_metric before)
  /\
  (tsdf_memory_start reset = base /\
   tsdf_memory_end reset = last /\
   tsdf_rolling_buff_origin reset = base /\
   origin_GRID reset = mk_vec3 0 0 0 /\
   origin_GRID_global reset = mk_vec3 0 0 0 /\
   origin_metric reset = mk_vec3 Fp.zero_f Fp.zero_f Fp.zero_f)
  /\
  (volume_size init = volume_size before /\
   voxels_size init = voxels /\
   volume_size reset = volume_size before /\
   voxels_size reset = voxels).
Proof.
  cbv zeta. simpl.
  unfold last_voxel_address, elem, ptr.
  repeat split; lia.
Qed.

(** ** Construction *)

(** C7, as the spec states it, fails: a cube with zero voxels per axis is
    constructed without an error, and so is one with a negative size; the
    resulting objects go through [resetBuffer] and [shiftOrigin]. *)
Lemma construction_accepts_non_positive :
  non_positive_configuration one_metre one_metre one_metre 0 0 0 /\
  new_cubic buffer_zero half_metre one_metre 0
  = Constructed (CyclicalBuffer_cubic buffer_zero half_metre one_metre 0) /\
  new_cubic buffer_zero half_metre one_metre 0 <> ConfigurationError /\
  voxels_size (buffer_ (shiftOrigin store 0 0 0
                          (resetBuffer store
                             (CyclicalBuffer_cubic buffer_zero half_metre
                                                   one_metre 0))))
  = mk_vec3 0 0 0 /\
  new_cubic buffer_zero half_metre (SFopp one_metre) 10 <> ConfigurationError.
Proof.
  repeat split; try discriminate.
  unfold non_positive_configuration. right. right. right. left. lia.
Qed.

(** C7, amended.  The constructors validate nothing: for every
    configuration, non-positive ones included, construction yields an
    object, whose voxel counts are the given counts, whose volume size is
    the given size converted to the field type, and whose threshold is the
    given threshold. *)
Theorem construction_never_fails (buffer0 : tsdf_buffer)
    (distance_threshold sx sy sz cube_size : Fp.double)
    (nx ny nz nb_voxels_per_axis : Z) :
  (exists c,
      new_non_cubic buffer0 distance_threshold sx sy sz nx ny nz = Constructed c /\
      voxels_size (buffer_ c) = mk_vec3 nx ny nz /\
      volume_size (buffer_ c)
      = mk_vec3 (Fp.double_to_float sx) (Fp.double_to_float sy)
                (Fp.double_to_float sz) /\
      distance_threshold_ c = distance_threshold)
  /\
  (exists c,
      new_cubic buffer0 distance_threshold cube_size nb_voxels_per_axis
      = Constructed c /\
      voxels_size (buffer_ c)
      = mk_vec3 nb_voxels_per_axis nb_voxels_per_axis nb_voxels_per_axis /\
      volume_size (buffer_ c)
      = mk_vec3 (Fp.double_to_float cube_size) (Fp.double_to_float cube_size)
                (Fp.double_to_float cube_size) /\
      distance_threshold_ c = distance_threshold).
Proof.
  split; eexists; repeat split.
Qed.

(** ** The threshold accessor *)

(** 0.5 survives the narrowing to [float]. *)
Lemma half_metre_narrows_exactly :
  Fp.is_double half_metre /\
  Fp.float_to_double (Fp.double_to_float half_metre) = half_metre.
Proof.
  split; reflexivity.
Qed.

(** C10.  The threshold is stored as the [double] it was given, by
    [setDistanceThreshold] and by both constructors, and
    [getDistanceThreshold] returns it narrowed to [float]; for some
    thresholds, such as the [double] nearest to 0.1, the returned [float]
    differs from the stored [double]. *)
Theorem getDistanceThreshold_narrows :
  (forall (t : Fp.double) (this : CyclicalBuffer),
      distance_threshold_ (setDistanceThreshold t this) = t /\
      getDistanceThreshold (setDistanceThreshold t this) = Fp.double_to_float t)
  /\
  (forall (buffer0 : tsdf_buffer) (t cube_size : Fp.double) (n : Z),
      getDistanceThreshold (CyclicalBuffer_cubic buffer0 t cube_size n)
      = Fp.double_to_float t)
  /\
  (forall (buffer0 : tsdf_buffer) (t sx sy sz : Fp.double) (nx ny nz : Z),
      getDistanceThreshold (CyclicalBuffer_non_cubic buffer0 t sx sy sz nx ny nz)
      = Fp.double_to_float t)
  /\
  (exists t : Fp.double,
      Fp.is_double t /\
      forall this : CyclicalBuffer,
        Fp.float_to_double (getDistanceThreshold (setDistanceThreshold t this))
        <> distance_threshold_ (setDistanceThreshold t this)).
Proof.
  repeat split.
  exists tenth_metre. split.
  - reflexivity.
  - intros this. vm_compute. discriminate.
Qed.

(** ** The shift planner *)

Section Rounding.

Local Open Scope Q_scope.
Import ShiftPlanner.

(** Rounding does not depend on the fraction that represents the number. *)
Lemma round_half_away_from_zero_comp (q q' : Q) :
  q == q' -> round_half_away_from_zero q = round_half_away_from_zero q'.
Proof.
  intros H. unfold round_half_away_from_zero.
  assert (Hs : Qle_bool 0 q = Qle_bool 0 q') by (rewrite H; reflexivity).
  rewrite Hs. destruct (Qle_bool 0 q').
  - apply Qfloor_comp. rewrite H. reflexivity.
  - f_equal. apply Qfloor_comp. rewrite H. reflexivity.
Qed.

Lemma Qfloor_nonneg (q : Q) : 0 <= q -> (0 <= Qfloor q)%Z.
Proof.
  intros H. change 0%Z with (Qfloor 0). apply Qfloor_resp_le, H.
Qed.

(** The magnitude is rounded half up, the sign is kept. *)
Lemma round_half_away_from_zero_spec (q : Q) :
  Z.abs (round_half_away_from_zero q) = Qfloor (Qabs q + (1 # 2)) /\
  0 <= inject_Z (round_half_away_from_zero q) * q.
Proof.
  unfold round_half_away_from_zero.
  destruct (Qle_bool 0 q) eqn:Hs.
  - apply Qle_bool_iff in Hs.
    assert (Hf : (0 <= Qfloor (q + (1 # 2)))%Z).
    { apply Qfloor_nonneg.
      apply Qle_trans with (0 + 0); [apply Qle_refl |].
      apply Qplus_le_compat; [exact Hs | discriminate]. }
    split.
    + rewrite Z.abs_eq by exact Hf.
      apply Qfloor_comp. rewrite (Qabs_pos q Hs). reflexivity.
    + apply Qmult_le_0_compat; [| exact Hs].
      change 0 with (inject_Z 0). rewrite <- Zle_Qle. exact Hf.
  - assert (Hn : q <= 0).
    { apply Qnot_lt_le. intros Hlt. apply Qlt_le_weak in Hlt.
      apply Qle_bool_iff in Hlt. congruence. }
    assert (Hopp : 0 <= - q).
    { apply (Qopp_le_compat q 0) in Hn. exact Hn. }
    assert (Hf : (0 <= Qfloor (- q + (1 # 2)))%Z).
    { apply Qfloor_nonneg.
      apply Qle_trans with (0 + 0); [apply Qle_refl |].
      apply Qplus_le_compat; [exact Hopp | discriminate]. }
    split.
    + rewrite Z.abs_opp, Z.abs_eq by exact Hf.
      apply Qfloor_comp. rewrite (Qabs_neg q Hn). reflexivity.
    + rewrite inject_Z_opp.
      setoid_replace (- inject_Z (Qfloor (- q + (1 # 2))) * q)
        with (inject_Z (Qfloor (- q + (1 # 2))) * - q) by ring.
      apply Qmult_le_0_compat; [| exact Hopp].
      change 0 with (inject_Z 0). rewrite <- Zle_Qle. exact Hf.
Qed.

(** A displacement [d] over voxels of a tenth of a metre is [10 d] voxels. *)
Lemma rawOffsetVoxels_tenth (center d : Q) :
  rawOffsetVoxels (center + d) center (voxelSize 1 10) == d * 10.
Proof.
  unfold rawOffsetVoxels, voxelSize. field.
Qed.

(** The clamp leaves an offset inside the window extent alone, and what it
    returns is inside the window extent. *)
Lemma clamp_inside (voxelCount offset : Z) :
  (Z.abs offset <= voxelCount - 1)%Z -> clamp voxelCount offset = offset.
Proof.
  unfold clamp. lia.
Qed.

Lemma clamp_bound (voxelCount offset : Z) :
  (0 < voxelCount)%Z -> (Z.abs (clamp voxelCount offset) <= voxelCount - 1)%Z.
Proof.
  unfold clamp. lia.
Qed.

(** Planned offsets satisfy the clamp the commit step relies on. *)
Lemma planOffsets_within_clamp
    (targetPoint windowCenterMetric volumeSizeMeters : vec3 Q) (voxelCount : int3) :
  (forall a : axis, (0 < component a voxelCount)%Z) ->
  within_clamp voxelCount
    (planOffsets targetPoint windowCenterMetric volumeSizeMeters voxelCount).
Proof.
  intros Hpos a. specialize (Hpos a).
  destruct a; simpl in *; apply clamp_bound; exact Hpos.
Qed.

(** C8.  On every axis the planner takes
    [rawOffsetVoxels = (targetPoint - windowCenterMetric) / voxelSize] and
    rounds it half away from zero: the magnitude of the offset is the
    magnitude of the raw offset rounded half up, and the offset has the sign
    of the raw offset.  With ten voxels to the metre a displacement of
    0.25 m plans 3 voxels and one of 0.24 m plans 2, wherever the window
    centre is.  The planned offset of an axis is this rounded value, held
    within [voxelCount - 1] in magnitude. *)
Theorem planner_rounds_half_away_from_zero :
  (forall (targetPoint windowCenterMetric volumeSizeMeters : Q) (voxelCount : Z),
      roundedOffset targetPoint windowCenterMetric volumeSizeMeters voxelCount
      = round_half_away_from_zero
          ((targetPoint - windowCenterMetric)
           / (volumeSizeMeters / inject_Z voxelCount)))
  /\
  (forall raw : Q,
      Z.abs (round_half_away_from_zero raw) = Qfloor (Qabs raw + (1 # 2)) /\
      0 <= inject_Z (round_half_away_from_zero raw) * raw)
  /\
  (forall (targetPoint windowCenterMetric volumeSizeMeters : vec3 Q)
          (voxelCount : int3) (a : axis),
      component a (planOffsets targetPoint windowCenterMetric volumeSizeMeters
                               voxelCount)
      = clamp (component a voxelCount)
              (roundedOffset (component a targetPoint)
                             (component a windowCenterMetric)
                             (component a volumeSizeMeters)
                             (component a voxelCount)))
  /\
  (forall center : Q,
      voxelSize 1 10 == 1 # 10 /\
      roundedOffset (center + (1 # 4)) center 1 10 = 3%Z /\
      planAxis (center + (1 # 4)) center 1 10 = 3%Z /\
      roundedOffset (center + (6 # 25)) center 1 10 = 2%Z /\
      planAxis (center + (6 # 25)) center 1 10 = 2%Z).
Proof.
  split; [| split; [| split]].
  - intros. reflexivity.
  - apply round_half_away_from_zero_spec.
  - intros t c v n a. destruct a; reflexivity.
  - intros center.
    assert (H25 : roundedOffset (center + (1 # 4)) center 1 10 = 3%Z).
    { unfold roundedOffset.
      rewrite (round_half_away_from_zero_comp
                 _ _ (rawOffsetVoxels_tenth center (1 # 4))).
      reflexivity. }
    assert (H24 : roundedOffset (center + (6 # 25)) center 1 10 = 2%Z).
    { unfold roundedOffset.
      rewrite (round_half_away_from_zero_comp
                 _ _ (rawOffsetVoxels_tenth center (6 # 25))).
      reflexivity. }
    unfold planAxis. rewrite H25, H24.
    repeat split.
Qed.

(** The rounding is symmetric: a displacement of 0.25 m backwards plans
    3 voxels backwards. *)
Lemma planner_rounds_backwards (center : Q) :
  planAxis (center + - (1 # 4)) center 1 10 = (-3)%Z.
Proof.
  unfold planAxis, roundedOffset.
  rewrite (round_half_away_from_zero_comp
             _ _ (rawOffsetVoxels_tenth center (- (1 # 4)))).
  reflexivity.
Qed.

End Rounding.

(** * Further properties of the cyclical buffer *)

(** ** One axis, with offsets up to a whole window *)

Section OneAxisWide.

Variables origin nb_voxels : Z.
Hypothesis in_window : 0 <= origin < nb_voxels.

Lemma shift_axis_wide_range (offset : Z) :
  Z.abs offset <= nb_voxels ->
  0 <= shift_axis origin offset nb_voxels < nb_voxels.
Proof using in_window.
  intros Hk. unfold shift_axis; cbv zeta.
  destruct (Z.geb_spec (origin + offset) nb_voxels);
    destruct (Z.ltb_spec (origin + offset) 0); lia.
Qed.

Lemma shift_axis_wide_mod (offset : Z) :
  Z.abs offset <= nb_voxels ->
  shift_axis origin offset nb_voxels = (origin + offset) mod nb_voxels.
Proof using in_window.
  intros Hk. pose proof (shift_axis_wide_range offset Hk) as Hr.
  revert Hr. unfold shift_axis; cbv zeta.
  destruct (Z.geb_spec (origin + offset) nb_voxels);
    destruct (Z.ltb_spec (origin + offset) 0); intros Hr.
  - lia.
  - apply Z.mod_unique_pos with (q := 1); lia.
  - apply Z.mod_unique_pos with (q := -1); lia.
  - apply Z.mod_unique_pos with (q := 0); lia.
Qed.

Lemma shift_axis_whole_window :
  shift_axis origin nb_voxels nb_voxels = origin /\
  shift_axis origin (- nb_voxels) nb_voxels = origin.
Proof using in_window.
  unfold shift_axis; cbv zeta. split.
  - destruct (Z.geb_spec (origin + nb_voxels) nb_voxels);
      destruct (Z.ltb_spec (origin + nb_voxels) 0); lia.
  - destruct (Z.geb_spec (origin + - nb_voxels) nb_voxels);
      destruct (Z.ltb_spec (origin + - nb_voxels) 0); lia.
Qed.

End OneAxisWide.

Lemma shift_axis_compose (origin nb_voxels a b : Z) :
  0 <= origin < nb_voxels ->
  Z.abs a <= nb_voxels -> Z.abs b <= nb_voxels -> Z.abs (a + b) <= nb_voxels ->
  shift_axis (shift_axis origin a nb_voxels) b nb_voxels
  = shift_axis origin (a + b) nb_voxels.
Proof.
  intros Hw Ha Hb Hab.
  pose proof (shift_axis_wide_range origin nb_voxels Hw a Ha) as Hr.
  rewrite (shift_axis_wide_mod _ _ Hr b Hb).
  rewrite (shift_axis_wide_mod _ _ Hw a Ha).
  rewrite (shift_axis_wide_mod _ _ Hw (a + b) Hab).
  rewrite Zplus_mod_idemp_l. f_equal. lia.
Qed.

(** An offset beyond a whole window throws some origin out of the window. *)
Lemma shift_axis_escapes (nb_voxels offset : Z) :
  0 < nb_voxels -> nb_voxels < Z.abs offset ->
  exists origin,
    0 <= origin < nb_voxels /\
    ~ 0 <= shift_axis origin offset nb_voxels < nb_voxels.
Proof.
  intros Hn Hoff.
  destruct (Z_lt_le_dec offset 0) as [Hneg | Hpos].
  - exists 0. split; [lia |].
    unfold shift_axis; cbv zeta.
    destruct (Z.geb_spec (0 + offset) nb_voxels);
      destruct (Z.ltb_spec (0 + offset) 0); lia.
  - exists (nb_voxels - 1). split; [lia |].
    unfold shift_axis; cbv zeta.
    destruct (Z.geb_spec (nb_voxels - 1 + offset) nb_voxels);
      destruct (Z.ltb_spec (nb_voxels - 1 + offset) 0); lia.
Qed.

(** ** The logical start address stays inside the voxel memory *)

Lemma shiftOrigin_wide_in_window vol ox oy oz this :
  origin_in_window (buffer_ this) ->
  within_window_extent (voxels_size (buffer_ this)) (mk_vec3 ox oy oz) ->
  origin_in_window (buffer_ (shiftOrigin vol ox oy oz this)).
Proof.
  intros Hw Hk a.
  rewrite shiftOrigin_origin_GRID, shiftOrigin_voxels_size.
  apply shift_axis_wide_range; [apply Hw | apply Hk].
Qed.

Lemma voxel_address_within (vol : PtrStep) (voxels g : int3) :
  (forall a : axis, 0 <= component a g < component a voxels) ->
  0 <= step vol ->
  elem (ptr vol 0) 0 <= voxel_address vol voxels g
  <= last_voxel_address vol voxels.
Proof.
  intros Hg Hs.
  pose proof (Hg X) as Hx. pose proof (Hg Y) as Hy. pose proof (Hg Z_) as Hz.
  simpl in Hx, Hy, Hz.
  unfold voxel_address, last_voxel_address, elem, ptr.
  assert (Hrow : 0 <= y voxels * z g + y g
                 <= y voxels * (z voxels - 1) + (y voxels - 1)) by nia.
  split; nia.
Qed.

(** X1.  After a shift of at most a whole window per axis, from a rolling
    origin
    inside the window and on a store with a non-negative row stride, the
    logical start address lies between the start and the end address that
    the same call stored. *)
Theorem shiftOrigin_rolling_within_bounds (vol : TsdfVolume) (ox oy oz : Z)
    (this : CyclicalBuffer) :
  origin_in_window (buffer_ this) ->
  within_window_extent (voxels_size (buffer_ this)) (mk_vec3 ox oy oz) ->
  0 <= step (TsdfVolume_data vol) ->
  rolling_within_bounds (buffer_ (shiftOrigin vol ox oy oz this)).
Proof.
  intros Hw Hk Hs.
  pose proof (shiftOrigin_wide_in_window vol ox oy oz this Hw Hk) as Hw'.
  unfold rolling_within_bounds.
  apply (voxel_address_within (TsdfVolume_data vol)
           (voxels_size (buffer_ this))
           (origin_GRID (buffer_ (shiftOrigin vol ox oy oz this))));
    assumption.
Qed.

Lemma shiftOrigin_rolling_within_bounds_witness :
  rolling_within_bounds (buffer_ (shiftOrigin store 10 (-10) 3 window10_shifted)).
Proof.
  apply (shiftOrigin_rolling_within_bounds store 10 (-10) 3 window10_shifted).
  - on_each_axis.
  - on_each_axis.
  - simpl; lia.
Defined.

(** ** How far one shift may go *)

(** X2.  For a window with positive voxel counts, [shiftOrigin] keeps every
    rolling origin of the window inside the window exactly when each offset
    is at most the voxel count of its axis in magnitude: one correction
    covers a whole window, and nothing beyond. *)
Theorem shiftOrigin_keeps_window_iff (vol : TsdfVolume) (voxels : int3)
    (ox oy oz : Z) :
  (forall a : axis, 0 < component a voxels) ->
  (forall this : CyclicalBuffer,
      voxels_size (buffer_ this) = voxels ->
      origin_in_window (buffer_ this) ->
      origin_in_window (buffer_ (shiftOrigin vol ox oy oz this)))
  <-> within_window_extent voxels (mk_vec3 ox oy oz).
Proof.
  intros Hpos. split.
  - intros Hkeep a.
    destruct (Z_le_gt_dec (Z.abs (component a (mk_vec3 ox oy oz)))
                          (component a voxels)) as [Hle | Hgt]; [exact Hle |].
    exfalso.
    destruct (shift_axis_escapes (component a voxels)
                (component a (mk_vec3 ox oy oz)) (Hpos a)) as (g & Hg & Hout);
      [lia |].
    set (grid := match a with
                 | X => mk_vec3 g 0 0
                 | Y => mk_vec3 0 g 0
                 | Z_ => mk_vec3 0 0 g
                 end).
    assert (Hin : origin_in_window (buffer_ (window_at voxels grid))).
    { intros b. pose proof (Hpos b) as Hb.
      destruct a, b; simpl in *; lia. }
    specialize (Hkeep (window_at voxels grid) eq_refl Hin a).
    rewrite shiftOrigin_origin_GRID in Hkeep.
    apply Hout. destruct a; exact Hkeep.
  - intros Hk this Hv Hw. subst voxels.
    apply shiftOrigin_wide_in_window; assumption.
Qed.

Lemma shiftOrigin_keeps_window_iff_witness :
  (forall this : CyclicalBuffer,
      voxels_size (buffer_ this) = mk_vec3 10 10 10 ->
      origin_in_window (buffer_ this) ->
      origin_in_window (buffer_ (shiftOrigin store 10 (-10) 0 this)))
  <-> within_window_extent (mk_vec3 10 10 10) (mk_vec3 10 (-10) 0).
Proof.
  apply (shiftOrigin_keeps_window_iff store (mk_vec3 10 10 10) 10 (-10) 0).
  on_each_axis.
Defined.

(** ** A shift by the whole window *)

(** X3.  A shift by exactly the voxel counts, forwards or backwards, from a
    rolling origin inside the window leaves the rolling origin where it
    was, while the global origin moves by the voxel counts. *)
Theorem shiftOrigin_whole_window (vol : TsdfVolume) (this : CyclicalBuffer) :
  origin_in_window (buffer_ this) ->
  let voxels := voxels_size (buffer_ this) in
  let forwards := shiftOrigin vol (x voxels) (y voxels) (z voxels) this in
  let backwards :=
    shiftOrigin vol (- x voxels) (- y voxels) (- z voxels) this in
  origin_GRID (buffer_ forwards) = origin_GRID (buffer_ this) /\
  origin_GRID (buffer_ backwards) = origin_GRID (buffer_ this) /\
  (forall a : axis,
      component a (origin_GRID_global (buffer_ forwards))
      = component a (origin_GRID_global (buffer_ this)) + component a voxels /\
      component a (origin_GRID_global (buffer_ backwards))
      = component a (origin_GRID_global (buffer_ this)) - component a voxels).
Proof.
  intros Hw voxels forwards backwards. subst forwards backwards voxels.
  split; [| split].
  - apply vec3_ext; intros a. rewrite shiftOrigin_origin_GRID.
    destruct a; simpl; apply shift_axis_whole_window;
      [apply (Hw X) | apply (Hw Y) | apply (Hw Z_)].
  - apply vec3_ext; intros a. rewrite shiftOrigin_origin_GRID.
    destruct a; simpl; apply shift_axis_whole_window;
      [apply (Hw X) | apply (Hw Y) | apply (Hw Z_)].
  - intros a. rewrite !shiftOrigin_origin_GRID_global.
    destruct a; simpl; lia.
Qed.

Lemma shiftOrigin_whole_window_witness :
  origin_GRID (buffer_ (shiftOrigin store 10 10 10 window10_shifted))
  = mk_vec3 4 0 0.
Proof.
  refine (proj1 (shiftOrigin_whole_window store window10_shifted _)).
  on_each_axis.
Defined.

(** ** Two shifts in a row *)

(** X4.  Two shifts in a row are one shift by the sum of their offsets, as
    long
    as each offset and the sum stay within a whole window per axis: the
    whole object after the second call is the object the single call
    gives (the pointers are those of the last volume). *)
Theorem shiftOrigin_compose (vol vol' : TsdfVolume) (ax ay az bx by_ bz : Z)
    (this : CyclicalBuffer) :
  let voxels := voxels_size (buffer_ this) in
  origin_in_window (buffer_ this) ->
  within_window_extent voxels (mk_vec3 ax ay az) ->
  within_window_extent voxels (mk_vec3 bx by_ bz) ->
  within_window_extent voxels (mk_vec3 (ax + bx) (ay + by_) (az + bz)) ->
  shiftOrigin vol bx by_ bz (shiftOrigin vol' ax ay az this)
  = shiftOrigin vol (ax + bx) (ay + by_) (az + bz) this.
Proof.
  intros voxels Hw Ha Hb Hab. subst voxels.
  pose proof (shift_axis_compose _ _ ax bx (Hw X) (Ha X) (Hb X) (Hab X)) as Hx.
  pose proof (shift_axis_compose _ _ ay by_ (Hw Y) (Ha Y) (Hb Y) (Hab Y)) as Hy.
  pose proof (shift_axis_compose _ _ az bz (Hw Z_) (Ha Z_) (Hb Z_) (Hab Z_)) as Hz.
  simpl in Hx, Hy, Hz.
  unfold shiftOrigin, with_buffer; simpl.
  rewrite Hx, Hy, Hz, !Z.add_assoc.
  reflexivity.
Qed.

Lemma shiftOrigin_compose_witness :
  shiftOrigin store (-9) 2 10 (shiftOrigin store 7 (-6) (-10) window10_shifted)
  = shiftOrigin store (7 + -9) (-6 + 2) (-10 + 10) window10_shifted.
Proof.
  apply (shiftOrigin_compose store store 7 (-6) (-10) (-9) 2 10 window10_shifted);
    on_each_axis.
Defined.

(** ** The origins after a whole run *)

Lemma shift_all_origins (calls : list shift_call) (this : CyclicalBuffer) :
  origin_in_window (buffer_ this) ->
  Forall (fun c => within_window_extent (voxels_size (buffer_ this))
                                        (call_offset c)) calls ->
  voxels_size (buffer_ (shift_all this calls)) = voxels_size (buffer_ this) /\
  forall a : axis,
    component a (origin_GRID_global (buffer_ (shift_all this calls)))
    = component a (origin_GRID_global (buffer_ this))
      + component a (net_offset calls)
    /\
    component a (origin_GRID (buffer_ (shift_all this calls)))
    = (component a (origin_GRID (buffer_ this)) + component a (net_offset calls))
      mod component a (voxels_size (buffer_ this)).
Proof.
  revert this.
  induction calls as [| c rest IH]; intros this Hw Hk.
  - split; [reflexivity |]. intros a. split.
    + destruct a; simpl; lia.
    + replace (component a (net_offset [])) with 0 by (destruct a; reflexivity).
      rewrite Z.add_0_r. symmetry. apply Z.mod_small, Hw.
  - inversion Hk as [| c' rest' Hc Hrest]; subst.
    assert (Hoff : call_offset c
                   = mk_vec3 (x (call_offset c)) (y (call_offset c))
                             (z (call_offset c)))
      by (destruct (call_offset c); reflexivity).
    rewrite Hoff in Hc.
    pose proof (shiftOrigin_wide_in_window (call_volume c) _ _ _ this Hw Hc)
      as Hw1.
    change (shift_all this (c :: rest))
      with (shift_all (apply_shift c this) rest).
    destruct (IH (apply_shift c this) Hw1 Hrest) as [Hv Hrun].
    split; [exact Hv |].
    intros a. destruct (Hrun a) as [Hg Ho]. split.
    + rewrite Hg. unfold apply_shift.
      rewrite shiftOrigin_origin_GRID_global.
      destruct a; simpl; lia.
    + rewrite Ho. unfold apply_shift.
      rewrite shiftOrigin_origin_GRID, shiftOrigin_voxels_size.
      rewrite shift_axis_wide_mod by (apply Hw || apply Hc).
      rewrite Zplus_mod_idemp_l. f_equal.
      destruct a; simpl; lia.
Qed.

(** X5.  Construct a window with positive voxel counts, reset it, and run any
    sequence of shifts of at most a whole window each.  Then the global
    origin is the net offset of the run, and the rolling origin is the net
    offset reduced modulo the voxel counts. *)
Theorem run_after_reset (buffer0 : tsdf_buffer)
    (distance_threshold sx sy sz : Fp.double) (nx ny nz : Z)
    (vol : TsdfVolume) (calls : list shift_call) :
  0 < nx -> 0 < ny -> 0 < nz ->
  Forall (fun c => within_window_extent (mk_vec3 nx ny nz) (call_offset c))
         calls ->
  let fresh :=
    resetBuffer vol
      (CyclicalBuffer_non_cubic buffer0 distance_threshold sx sy sz nx ny nz) in
  let after := buffer_ (shift_all fresh calls) in
  origin_GRID_global after = net_offset calls /\
  origin_GRID after
  = mk_vec3 (x (net_offset calls) mod nx)
            (y (net_offset calls) mod ny)
            (z (net_offset calls) mod nz).
Proof.
  intros Hx Hy Hz Hk fresh after.
  assert (Hw : origin_in_window (buffer_ fresh))
    by (intros a; destruct a; simpl; lia).
  destruct (shift_all_origins calls fresh Hw Hk) as [_ Hrun].
  split; apply vec3_ext; intros a; destruct (Hrun a) as [Hg Ho].
  - subst after. rewrite Hg. destruct a; reflexivity.
  - subst after. rewrite Ho. destruct a; reflexivity.
Qed.

Lemma run_after_reset_witness :
  origin_GRID_global
    (buffer_ (shift_all (resetBuffer store
                           (CyclicalBuffer_non_cubic buffer_zero half_metre
                              one_metre one_metre one_metre 10 10 10))
                        sample_calls))
  = net_offset sample_calls.
Proof.
  refine (proj1 (run_after_reset buffer_zero half_metre one_metre one_metre
                   one_metre 10 10 10 store sample_calls _ _ _ _)).
  - lia.
  - lia.
  - lia.
  - repeat constructor; on_each_axis.
Defined.

(** ** Reset forgets the run *)

Lemma resetBuffer_after_shiftOrigin v vol ox oy oz this :
  resetBuffer v (shiftOrigin vol ox oy oz this) = resetBuffer v this.
Proof. reflexivity. Qed.

(** X6.  [resetBuffer] gives the same object whatever shifts, initialisations
    or
    resets came before it: only the geometry, the threshold and the members
    outside the buffer structure survive, none of the origins or
    pointers. *)
Theorem resetBuffer_forgets (v v' : TsdfVolume) (calls : list shift_call)
    (this : CyclicalBuffer) :
  resetBuffer v (shift_all this calls) = resetBuffer v this /\
  resetBuffer v (initBuffer v' (shift_all this calls)) = resetBuffer v this /\
  resetBuffer v (shift_all (resetBuffer v' this) calls) = resetBuffer v this.
Proof.
  assert (Hrun : forall s, resetBuffer v (shift_all s calls) = resetBuffer v s).
  { induction calls as [| c rest IH]; intros s; [reflexivity |].
    change (shift_all s (c :: rest)) with (shift_all (apply_shift c s) rest).
    rewrite IH. apply resetBuffer_after_shiftOrigin. }
  split; [apply Hrun | split].
  - change (resetBuffer v (initBuffer v' (shift_all this calls)))
      with (resetBuffer v (shift_all this calls)).
    apply Hrun.
  - rewrite Hrun. reflexivity.
Qed.

(** ** Addresses and rolling origins *)

Lemma voxel_address_injective (vol : PtrStep) (voxels g g' : int3) :
  (forall a : axis, 0 <= component a g < component a voxels) ->
  (forall a : axis, 0 <= component a g' < component a voxels) ->
  x voxels <= step vol ->
  voxel_address vol voxels g = voxel_address vol voxels g' ->
  g = g'.
Proof.
  intros Hg Hg' Hs Heq.
  pose proof (Hg X) as Hx. pose proof (Hg Y) as Hy. pose proof (Hg Z_) as Hz.
  pose proof (Hg' X) as Hx'. pose proof (Hg' Y) as Hy'. pose proof (Hg' Z_) as Hz'.
  destruct g as [gx gy gz], g' as [gx' gy' gz']. simpl in *.
  unfold voxel_address, elem, ptr in Heq. simpl in Heq.
  assert (Hrow : y voxels * gz + gy = y voxels * gz' + gy').
  { destruct (Z.lt_trichotomy (y voxels * gz + gy) (y voxels * gz' + gy'))
      as [Hlt | [Hrow | Hgt]]; [exfalso | exact Hrow | exfalso]; nia. }
  assert (Hgx : gx = gx') by nia.
  assert (Hgz : gz = gz').
  { destruct (Z.lt_trichotomy gz gz') as [Hlt | [Hgz | Hgt]];
      [exfalso | exact Hgz | exfalso]; nia. }
  assert (Hgy : gy = gy') by nia.
  congruence.
Qed.

(** X7.  On a store whose rows are at least as long as the window is wide, two
    shifts that end on the same logical start address end on the same
    rolling origin: inside the window, different rolling origins never
    share an address. *)
Theorem rolling_address_injective (vol : TsdfVolume)
    (ox oy oz ox' oy' oz' : Z) (this this' : CyclicalBuffer) :
  let after := buffer_ (shiftOrigin vol ox oy oz this) in
  let after' := buffer_ (shiftOrigin vol ox' oy' oz' this') in
  voxels_size (buffer_ this) = voxels_size (buffer_ this') ->
  origin_in_window after ->
  origin_in_window after' ->
  x (voxels_size (buffer_ this)) <= step (TsdfVolume_data vol) ->
  tsdf_rolling_buff_origin after = tsdf_rolling_buff_origin after' ->
  origin_GRID after = origin_GRID after'.
Proof.
  intros after after' Hv Hw Hw' Hs Heq.
  apply (voxel_address_injective (TsdfVolume_data vol)
           (voxels_size (buffer_ this))); try assumption.
  - subst after'. intros a. specialize (Hw' a).
    rewrite shiftOrigin_voxels_size, <- Hv in Hw'. exact Hw'.
  - subst after after'. simpl in Heq |- *.
    rewrite <- Hv in Heq |- *. exact Heq.
Qed.

Lemma rolling_address_injective_witness :
  origin_GRID (buffer_ (shiftOrigin store 9 0 0 window10_shifted))
  = origin_GRID (buffer_ (shiftOrigin store 3 0 0 window10)).
Proof.
  apply (rolling_address_injective store 9 0 0 3 0 0 window10_shifted window10).
  - reflexivity.
  - on_each_axis.
  - on_each_axis.
  - simpl; lia.
  - reflexivity.
Defined.

(** X8.  [initBuffer] puts the logical start address on the first voxel
    without
    looking at the rolling origin: on a store whose rows are at least as
    long as the window is wide, and with the rolling origin inside the
    window, the address it leaves is the address of the rolling origin
    exactly when the rolling origin is (0, 0, 0). *)
Theorem initBuffer_consistent_iff (vol : TsdfVolume) (this : CyclicalBuffer) :
  origin_in_window (buffer_ this) ->
  x (voxels_size (buffer_ this)) <= step (TsdfVolume_data vol) ->
  rolling_consistent vol (buffer_ (initBuffer vol this))
  <-> origin_GRID (buffer_ this) = mk_vec3 0 0 0.
Proof.
  intros Hw Hs. unfold rolling_consistent. simpl.
  assert (Hzero : elem (ptr (TsdfVolume_data vol) 0) 0
                  = voxel_address (TsdfVolume_data vol)
                      (voxels_size (buffer_ this)) (mk_vec3 0 0 0)).
  { unfold voxel_address, elem, ptr. simpl. lia. }
  split.
  - intros Heq. rewrite Hzero in Heq. symmetry.
    apply (voxel_address_injective (TsdfVolume_data vol)
             (voxels_size (buffer_ this))); try assumption.
    intros a. specialize (Hw a). destruct a; simpl in *; lia.
  - intros Hg. rewrite Hg. exact Hzero.
Qed.

Lemma initBuffer_consistent_iff_witness :
  rolling_consistent store (buffer_ (initBuffer store window10_shifted))
  <-> origin_GRID (buffer_ window10_shifted) = mk_vec3 0 0 0.
Proof.
  apply (initBuffer_consistent_iff store window10_shifted).
  - on_each_axis.
  - simpl; lia.
Defined.

(** X9.  When the rows of the store are exactly as long as the window is wide,
    the memory bounds that [initBuffer], [resetBuffer] and [shiftOrigin]
    store span exactly one address per voxel. *)
Theorem memory_bounds_span (vol : TsdfVolume) (ox oy oz : Z)
    (this : CyclicalBuffer) :
  let voxels := voxels_size (buffer_ this) in
  let span b := tsdf_memory_end b - tsdf_memory_start b + 1 in
  step (TsdfVolume_data vol) = x voxels ->
  span (buffer_ (initBuffer vol this)) = x voxels * y voxels * z voxels /\
  span (buffer_ (resetBuffer vol this)) = x voxels * y voxels * z voxels /\
  span (buffer_ (shiftOrigin vol ox oy oz this))
  = x voxels * y voxels * z voxels.
Proof.
  intros voxels span Hs. subst span voxels. simpl.
  unfold last_voxel_address, elem, ptr. rewrite Hs.
  repeat split; ring.
Qed.

Lemma memory_bounds_span_witness :
  tsdf_memory_end (buffer_ (initBuffer (mk_TsdfVolume (mk_PtrStep 4096 10))
                                       window10))
  - tsdf_memory_start (buffer_ (initBuffer (mk_TsdfVolume (mk_PtrStep 4096 10))
                                           window10))
  + 1
  = 10 * 10 * 10.
Proof.
  refine (proj1 (memory_bounds_span (mk_TsdfVolume (mk_PtrStep 4096 10))
                   0 0 0 window10 _)).
  reflexivity.
Defined.

(** * Properties of the organized point cloud codec *)

Section CodecProperties.

Import OrganizedCompression.

Context {PointT : Type} {traits : PointTraits PointT} {ext : Externals PointT}.

(** ** Bytes and words *)

Lemma Z_of_byte_range (b : byte) : 0 <= Z_of_byte b < 256.
Proof.
  unfold Z_of_byte. pose proof (Byte.to_N_bounded b) as H.
  split; [apply N2Z.is_nonneg |].
  apply N2Z.inj_le in H. simpl in H. lia.
Qed.

Lemma Z_of_byte_of_Z (n : Z) : Z_of_byte (byte_of_Z n) = n mod 256.
Proof.
  unfold Z_of_byte, byte_of_Z.
  pose proof (Z.mod_pos_bound n 256 eq_refl) as Hr.
  destruct (Byte.of_N (Z.to_N (n mod 256))) as [b |] eqn:Hb.
  - apply Byte.to_of_N in Hb. rewrite Hb. apply Z2N.id. lia.
  - apply Byte.of_N_None_iff in Hb.
    apply N2Z.inj_lt in Hb. rewrite Z2N.id in Hb by lia. simpl in Hb. lia.
Qed.

Lemma uint32_of_uint32_bytes (n : Z) (rest : list byte) :
  read_uint32 (uint32_bytes n ++ rest) = Ok (to_uint32 n, rest).
Proof.
  unfold uint32_bytes. cbn [app].
  unfold read_uint32, uint32_of_bytes, to_uint32.
  rewrite !Z_of_byte_of_Z. do 2 f_equal.
  change (2 ^ 8) with 256. change (2 ^ 16) with 65536.
  change (2 ^ 24) with 16777216. change (2 ^ 32) with 4294967296.
  pose proof (Z.div_mod n 256 ltac:(lia)) as H0.
  pose proof (Z.div_mod (n / 256) 256 ltac:(lia)) as H1.
  pose proof (Z.div_mod (n / 256 / 256) 256 ltac:(lia)) as H2.
  pose proof (Z.div_mod (n / 256 / 256 / 256) 256 ltac:(lia)) as H3.
  pose proof (Z.mod_pos_bound n 256 eq_refl) as B0.
  pose proof (Z.mod_pos_bound (n / 256) 256 eq_refl) as B1.
  pose proof (Z.mod_pos_bound (n / 256 / 256) 256 eq_refl) as B2.
  pose proof (Z.mod_pos_bound (n / 256 / 256 / 256) 256 eq_refl) as B3.
  replace (n / 65536) with (n / 256 / 256)
    by (rewrite Z.div_div by lia; reflexivity).
  replace (n / 16777216) with (n / 256 / 256 / 256)
    by (rewrite !Z.div_div by lia; reflexivity).
  apply Z.mod_unique_pos with (q := n / 256 / 256 / 256 / 256); lia.
Qed.

Lemma read_float_of_float_bytes (v : Fp.float) (rest : list byte) :
  read_float (float_bytes v ++ rest) = Ok (reload v, rest).
Proof.
  unfold read_float, float_bytes, then_, ret, reload.
  rewrite uint32_of_uint32_bytes. reflexivity.
Qed.

Lemma read_block_of_block (block rest : list byte) :
  read_block (Z.of_nat (length block)) (block ++ rest) = Ok (block, rest).
Proof.
  unfold read_block. rewrite Nat2Z.id.
  rewrite length_app.
  replace (length block <=? length block + length rest)%nat with true
    by (symmetry; apply Nat.leb_le; lia).
  rewrite firstn_app, skipn_app, Nat.sub_diag, firstn_all, skipn_all.
  simpl. rewrite app_nil_r. reflexivity.
Qed.

(** ** The search for the frame header *)

Local Abbreviation identifier := (@frameHeaderIdentifier_ PointT ext).

Lemma sync_step (pos : nat) (c : byte) (rest : list byte) :
  sync_to_frame_header pos (c :: rest)
  = if (pos <? length identifier)%nat then
      if Byte.eqb c (nth pos identifier Byte.x00)
      then sync_to_frame_header (S pos) rest
      else sync_to_frame_header
             (if Byte.eqb (nth 0 identifier Byte.x00) c then 1%nat else 0%nat)
             rest
    else Ok (tt, c :: rest).
Proof. reflexivity. Qed.

Lemma sync_done (pos : nat) (stream : list byte) :
  (length identifier <= pos)%nat ->
  sync_to_frame_header pos stream = Ok (tt, stream).
Proof.
  intros H. apply Nat.ltb_ge in H.
  destruct stream; simpl; rewrite H; reflexivity.
Qed.

Lemma byte_eqb_refl (b : byte) : Byte.eqb b b = true.
Proof. apply Byte.byte_dec_lb. reflexivity. Qed.

Lemma byte_eqb_neq (a b : byte) : a <> b -> Byte.eqb a b = false.
Proof.
  intros H. destruct (Byte.eqb a b) eqn:E; [| reflexivity].
  apply Byte.byte_dec_bl in E. contradiction.
Qed.

Lemma skipn_cons_nth {A : Type} (d : A) (l : list A) :
  forall (n : nat) (a : A) (t : list A),
    skipn n l = a :: t ->
    (n < length l)%nat /\ nth n l d = a /\ skipn (S n) l = t.
Proof.
  induction l as [| h l IH]; intros n a t H.
  - destruct n; discriminate.
  - destruct n as [| n].
    + simpl in H. inversion H; subst. simpl. repeat split; lia.
    + simpl in H. destruct (IH n a t H) as (Hl & Hn & Hs).
      simpl. repeat split; try assumption. lia.
Qed.

Lemma firstn_S_nth_snoc {A : Type} (d : A) (l : list A) :
  forall n : nat,
    (n < length l)%nat -> firstn (S n) l = firstn n l ++ [nth n l d].
Proof.
  induction l as [| h l IH]; intros n Hn.
  - simpl in Hn. lia.
  - destruct n as [| n]; [reflexivity |].
    simpl in Hn. rewrite firstn_cons, (IH n) by lia. reflexivity.
Qed.

(** Matching the rest of the identifier. *)
Lemma sync_rest_of_identifier (suffix : list byte) :
  forall (pos : nat) (rest : list byte),
    skipn pos identifier = suffix ->
    sync_to_frame_header pos (suffix ++ rest) = Ok (tt, rest).
Proof.
  induction suffix as [| c suffix IH]; intros pos rest Hs.
  - simpl. apply sync_done.
    pose proof (length_skipn pos identifier) as Hl.
    rewrite Hs in Hl. simpl in Hl. lia.
  - destruct (skipn_cons_nth Byte.x00 identifier pos c suffix Hs)
      as (Hlt & Hn & Hs').
    simpl app. rewrite sync_step.
    apply Nat.ltb_lt in Hlt. rewrite Hlt, Hn, byte_eqb_refl.
    apply IH, Hs'.
Qed.

(** On a stream that starts with the frame header identifier the search
    consumes the identifier and nothing more. *)
Lemma sync_consumes_identifier (rest : list byte) :
  sync_to_frame_header 0 (identifier ++ rest) = Ok (tt, rest).
Proof.
  apply sync_rest_of_identifier. reflexivity.
Qed.

Lemma sync_sound_from (rest : list byte) :
  forall (s : list byte) (pos : nat),
    (pos <= length identifier)%nat ->
    sync_to_frame_header pos s = Ok (tt, rest) ->
    exists skipped,
      firstn pos identifier ++ s = skipped ++ identifier ++ rest.
Proof.
  induction s as [| c s IH]; intros pos Hpos Hrun.
  - destruct (Nat.ltb_spec pos (length identifier)) as [Hlt | Hge].
    + simpl in Hrun. apply Nat.ltb_lt in Hlt. rewrite Hlt in Hrun.
      discriminate.
    + rewrite sync_done in Hrun by exact Hge. inversion Hrun; subst.
      exists []. rewrite firstn_all2 by exact Hge. reflexivity.
  - rewrite sync_step in Hrun.
    destruct (Nat.ltb_spec pos (length identifier)) as [Hlt | Hge].
    + destruct (Byte.eqb c (nth pos identifier Byte.x00)) eqn:Hc.
      * apply Byte.byte_dec_bl in Hc.
        destruct (IH (S pos) Hlt Hrun) as [skipped Hsk].
        exists skipped. rewrite <- Hsk.
        rewrite (firstn_S_nth_snoc Byte.x00 identifier pos Hlt), <- Hc.
        rewrite <- app_assoc. reflexivity.
      * destruct (Byte.eqb (nth 0 identifier Byte.x00) c) eqn:H0.
        -- apply Byte.byte_dec_bl in H0.
           destruct (IH 1%nat ltac:(lia) Hrun) as [skipped Hsk].
           exists (firstn pos identifier ++ skipped).
           rewrite <- app_assoc, <- Hsk. f_equal.
           destruct identifier as [| h t]; [simpl in Hlt; lia |].
           simpl in H0 |- *. rewrite H0. reflexivity.
        -- destruct (IH 0%nat ltac:(lia) Hrun) as [skipped Hsk].
           exists (firstn pos identifier ++ c :: skipped).
           simpl in Hsk. rewrite Hsk, <- app_assoc. reflexivity.
    + inversion Hrun; subst.
      exists []. rewrite firstn_all2 by exact Hge. reflexivity.
Qed.

(** X11.  When the search ends, what it consumed ends with the identifier: the
    header fields are read right after a complete identifier, never
    elsewhere. *)
Theorem sync_stops_after_identifier (stream rest : list byte) :
  sync_to_frame_header 0 stream = Ok (tt, rest) ->
  exists skipped, stream = skipped ++ identifier ++ rest.
Proof.
  intros Hrun.
  destruct (sync_sound_from rest stream 0%nat ltac:(lia) Hrun)
    as [skipped Hsk].
  exists skipped. exact Hsk.
Qed.

Lemma sync_skips_byte (c : byte) (stream : list byte) :
  identifier <> [] ->
  c <> nth 0 identifier Byte.x00 ->
  sync_to_frame_header 0 (c :: stream) = sync_to_frame_header 0 stream.
Proof.
  intros Hid Hc. rewrite sync_step.
  replace (0 <? length identifier)%nat with true
    by (symmetry; apply Nat.ltb_lt; destruct identifier;
        [contradiction | simpl; lia]).
  rewrite (byte_eqb_neq _ _ Hc).
  rewrite (byte_eqb_neq (nth 0 identifier Byte.x00) c) by congruence.
  reflexivity.
Qed.

Lemma sync_skips_bytes (before rest : list byte) :
  identifier <> [] ->
  Forall (fun b => b <> nth 0 identifier Byte.x00) before ->
  sync_to_frame_header 0 (before ++ identifier ++ rest) = Ok (tt, rest).
Proof.
  intros Hid Hb. induction Hb as [| c before Hc Hb IH].
  - apply sync_consumes_identifier.
  - simpl app. rewrite (sync_skips_byte c _ Hid Hc). exact IH.
Qed.

(** X10.  Bytes in front of a frame that differ from the first byte of the
    identifier are skipped, and the search stops right after the
    identifier of the frame. *)
Theorem sync_skips_to_frame (before rest : list byte) :
  identifier <> [] ->
  Forall (fun b => b <> nth 0 identifier Byte.x00) before ->
  sync_to_frame_header 0 (before ++ identifier ++ rest) = Ok (tt, rest).
Proof.
  exact (sync_skips_bytes before rest).
Qed.

Lemma nth_in_tl {A : Type} (d : A) (l : list A) (n : nat) :
  (0 < n < length l)%nat -> In (nth n l d) (tl l).
Proof.
  intros [H0 Hn]. destruct l as [| h t]; [simpl in Hn; lia |].
  destruct n as [| n]; [lia |]. simpl in *. apply nth_In. lia.
Qed.

Lemma head_and_tail {A : Type} (d : A) (l : list A) :
  l <> [] -> l = nth 0 l d :: tl l.
Proof.
  intros H. destruct l; [contradiction | reflexivity].
Qed.

Lemma sync_complete_from (rest0 : list byte) :
  identifier <> [] ->
  ~ In (nth 0 identifier Byte.x00) (tl identifier) ->
  forall (skipped : list byte) (pos : nat),
    (pos <= length identifier)%nat ->
    exists rest,
      sync_to_frame_header pos (skipped ++ identifier ++ rest0) = Ok (tt, rest).
Proof.
  intros Hid Hhead.
  induction skipped as [| c skipped IH]; intros pos Hpos.
  - simpl app.
    destruct (Nat.eq_dec pos 0) as [H0 | Hn0].
    + subst pos. exists rest0. apply sync_consumes_identifier.
    + destruct (Nat.ltb_spec pos (length identifier)) as [Hlt | Hge].
      * exists rest0.
        assert (Hsplit : identifier ++ rest0
                         = nth 0 identifier Byte.x00
                           :: (tl identifier ++ rest0)).
        { rewrite (head_and_tail Byte.x00 identifier Hid) at 1. reflexivity. }
        rewrite Hsplit, sync_step.
        assert (Hne : nth 0 identifier Byte.x00
                      <> nth pos identifier Byte.x00).
        { intros Heq. apply Hhead. rewrite Heq. apply nth_in_tl. lia. }
        apply Nat.ltb_lt in Hlt. rewrite Hlt.
        rewrite (byte_eqb_neq _ _ Hne), byte_eqb_refl.
        apply sync_rest_of_identifier.
        destruct identifier; reflexivity.
      * eexists. apply sync_done. exact Hge.
  - simpl app.
    destruct (Nat.ltb_spec pos (length identifier)) as [Hlt | Hge].
    + rewrite sync_step.
      replace (pos <? length identifier)%nat with true
        by (symmetry; apply Nat.ltb_lt; exact Hlt).
      destruct (Byte.eqb c (nth pos identifier Byte.x00)).
      * apply IH. lia.
      * destruct (Byte.eqb (nth 0 identifier Byte.x00) c); apply IH; lia.
    + eexists. apply sync_done. exact Hge.
Qed.

(** X12.  When the first byte of the identifier does not occur again inside
    the
    identifier, the search finds a header exactly when the stream holds
    one: it ends, after a complete identifier, on every stream that
    contains the identifier, whatever bytes come before. *)
Theorem sync_finds_header_iff (stream : list byte) :
  identifier <> [] ->
  ~ In (nth 0 identifier Byte.x00) (tl identifier) ->
  (exists rest, sync_to_frame_header 0 stream = Ok (tt, rest))
  <-> (exists skipped rest, stream = skipped ++ identifier ++ rest).
Proof.
  intros Hid Hhead. split.
  - intros [rest Hrun].
    destruct (sync_sound_from rest stream 0%nat ltac:(lia) Hrun)
      as [skipped Hsk].
    exists skipped, rest. exact Hsk.
  - intros (skipped & rest0 & Hs). subst stream.
    apply (sync_complete_from rest0 Hid Hhead skipped 0%nat). lia.
Qed.

(** ** [analyzeOrganizedCloud] *)

Lemma for_each_app {A S : Type} (l l' : list A) (body : A -> S -> result S)
    (s : S) :
  for_each (l ++ l') body s = bind (for_each l body s) (for_each l' body).
Proof.
  revert s. induction l as [| a l IH]; intros s; [reflexivity |].
  simpl. destruct (body a s); [apply IH | reflexivity].
Qed.

(** The nested loops are one loop over the rows of coordinates. *)
Lemma nested_loops_flat (pts : list PointT) (ys xs : list Z) (st : scan) :
  for_each ys (fun y => for_each xs (fun x => visit pts y x)) st
  = for_each (list_prod ys xs) (visit_at pts) st.
Proof.
  revert st. induction ys as [| y ys IH]; intros st; [reflexivity |].
  simpl. rewrite for_each_app.
  assert (Hrow : forall s,
             for_each (map (fun x => (y, x)) xs) (visit_at pts) s
             = for_each xs (fun x => visit pts y x) s).
  { clear IH. induction xs as [| a xs IHx]; intros s; [reflexivity |].
    simpl. unfold visit_at at 1. simpl fst. simpl snd.
    destruct (visit pts y a s); [apply IHx | reflexivity]. }
  rewrite Hrow.
  destruct (for_each xs (fun x => visit pts y x) st); [apply IH | reflexivity].
Qed.

Lemma length_for_range (lo hi : Z) :
  length (for_range lo hi) = Z.to_nat (hi - lo).
Proof.
  unfold for_range. rewrite length_map, length_seq. reflexivity.
Qed.

Lemma length_coordinates (cloud : PointCloud PointT) :
  length (list_prod (for_range (- (height cloud / 2)) (height cloud / 2))
                    (for_range (- (width cloud / 2)) (width cloud / 2)))
  = inspected cloud.
Proof.
  rewrite length_prod, !length_for_range. unfold inspected.
  f_equal; f_equal; lia.
Qed.

Lemma inspected_le (cloud : PointCloud PointT) :
  0 <= width cloud -> 0 <= height cloud ->
  Z.of_nat (inspected cloud) <= width cloud * height cloud.
Proof.
  intros Hw Hh. unfold inspected.
  pose proof (Z.div_mod (width cloud) 2 ltac:(lia)) as Dw.
  pose proof (Z.mod_pos_bound (width cloud) 2 eq_refl) as Bw.
  pose proof (Z.div_mod (height cloud) 2 ltac:(lia)) as Dh.
  pose proof (Z.mod_pos_bound (height cloud) 2 eq_refl) as Bh.
  rewrite Nat2Z.inj_mul, !Z2Nat.id by lia. nia.
Qed.

(** One pass over coordinates reads consecutive points and cannot fail
    while points remain. *)
Lemma scan_runs (pts : list PointT) (coords : list (Z * Z)) :
  forall st : scan,
    (it st + length coords <= length pts)%nat ->
    exists st',
      for_each coords (visit_at pts) st = Ok st' /\
      it st' = (it st + length coords)%nat.
Proof.
  induction coords as [| yx coords IH]; intros st Hlen.
  - exists st. split; [reflexivity | simpl; lia].
  - simpl in Hlen. simpl. unfold visit_at at 1, visit.
    destruct (nth_error pts (it st)) as [p |] eqn:Hp.
    + assert (Hnext : forall m f,
                 exists st',
                   for_each coords (visit_at pts) (mk_scan (S (it st)) m f)
                   = Ok st' /\
                   it st' = (it st + S (length coords))%nat).
      { intros m f.
        destruct (IH (mk_scan (S (it st)) m f)) as (st' & Hrun & Hit);
          [simpl; lia |].
        exists st'. split; [exact Hrun | simpl in Hit; lia]. }
      destruct (isFinite p); [destruct (flt (maxDepth st) (point_z p)) |];
        apply Hnext.
    + apply nth_error_None in Hp. lia.
Qed.

(** X13.  [analyzeOrganizedCloud] returns exactly when both assertions hold,
    and
    stops on an assertion otherwise: with the assertions passed, no read
    goes past the end of the point vector. *)
Theorem analyzeOrganizedCloud_outcome (cloud : PointCloud PointT) :
  let organized :=
    1 < width cloud /\ 1 < height cloud /\
    width cloud * height cloud = Z.of_nat (length (points cloud)) in
  (organized -> exists m f, analyzeOrganizedCloud cloud = Ok (m, f)) /\
  (~ organized -> analyzeOrganizedCloud cloud = Fail AssertionFailed).
Proof.
  cbv zeta. unfold analyzeOrganizedCloud. split.
  - intros (Hw & Hh & Hn).
    replace (1 <? width cloud) with true by (symmetry; apply Z.ltb_lt; lia).
    replace (1 <? height cloud) with true by (symmetry; apply Z.ltb_lt; lia).
    replace (width cloud * height cloud =? Z.of_nat (length (points cloud)))
      with true by (symmetry; apply Z.eqb_eq; exact Hn).
    simpl negb. cbv iota.
    rewrite nested_loops_flat.
    destruct (scan_runs (points cloud)
                (list_prod (for_range (- (height cloud / 2)) (height cloud / 2))
                           (for_range (- (width cloud / 2)) (width cloud / 2)))
                (mk_scan 0 Fp.zero_f Fp.zero_f)) as (st' & Hrun & _).
    { rewrite length_coordinates. simpl.
      pose proof (inspected_le cloud ltac:(lia) ltac:(lia)). lia. }
    rewrite Hrun. simpl. eauto.
  - intros Hnot.
    destruct (Z.ltb_spec 1 (width cloud)); [| reflexivity].
    destruct (Z.ltb_spec 1 (height cloud)); [| reflexivity].
    destruct (Z.eqb_spec (width cloud * height cloud)
                         (Z.of_nat (length (points cloud)))); [| reflexivity].
    exfalso. apply Hnot. repeat split; assumption.
Qed.

Lemma scan_agrees (pts pts' : list PointT) (coords : list (Z * Z)) :
  forall st : scan,
    (forall i : nat,
        (it st <= i < it st + length coords)%nat ->
        nth_error pts i = nth_error pts' i) ->
    for_each coords (visit_at pts) st = for_each coords (visit_at pts') st.
Proof.
  induction coords as [| yx coords IH]; intros st Hsame; [reflexivity |].
  simpl. unfold visit_at at 1 3, visit.
  rewrite <- (Hsame (it st)) by (simpl; lia).
  assert (Hnext : forall m f,
             for_each coords (visit_at pts) (mk_scan (S (it st)) m f)
             = for_each coords (visit_at pts') (mk_scan (S (it st)) m f)).
  { intros m f. apply IH. intros i Hi. apply Hsame. simpl in *. lia. }
  destruct (nth_error pts (it st)) as [p |]; [| reflexivity].
  destruct (isFinite p); [destruct (flt (maxDepth st) (point_z p)) |];
    apply Hnext.
Qed.

(** X14.  [analyzeOrganizedCloud] looks at the first
    [2 * (height / 2) * (2 * (width / 2))] points and at no other: two
    clouds of the same shape that agree on these points get the same
    maximum depth and focal length.  That is every point when width and
    height are even, and fewer than all when one of them is odd. *)
Theorem analyzeOrganizedCloud_reads_prefix (cloud cloud' : PointCloud PointT) :
  (width cloud = width cloud' ->
   height cloud = height cloud' ->
   length (points cloud) = length (points cloud') ->
   firstn (inspected cloud) (points cloud)
   = firstn (inspected cloud) (points cloud') ->
   analyzeOrganizedCloud cloud = analyzeOrganizedCloud cloud')
  /\
  (1 < width cloud -> 1 < height cloud ->
   (Z.even (width cloud) = true -> Z.even (height cloud) = true ->
    Z.of_nat (inspected cloud) = width cloud * height cloud) /\
   (Z.even (width cloud) = false \/ Z.even (height cloud) = false ->
    Z.of_nat (inspected cloud) < width cloud * height cloud)).
Proof.
  split.
  - intros Hw Hh Hn Hfirst. unfold analyzeOrganizedCloud.
    rewrite <- Hw, <- Hh, <- Hn.
    destruct (negb ((1 <? width cloud) && (1 <? height cloud)));
      [reflexivity |].
    destruct (negb (width cloud * height cloud
                    =? Z.of_nat (length (points cloud)))); [reflexivity |].
    rewrite !nested_loops_flat. f_equal.
    apply scan_agrees. intros i Hi.
    rewrite length_coordinates in Hi. simpl in Hi.
    assert (Hi' : (i <? inspected cloud)%nat = true)
      by (apply Nat.ltb_lt; lia).
    pose proof (nth_error_firstn (inspected cloud) (points cloud) i) as H1.
    pose proof (nth_error_firstn (inspected cloud) (points cloud') i) as H2.
    rewrite Hi' in H1, H2. rewrite <- H1, <- H2, Hfirst. reflexivity.
  - intros Hw Hh. unfold inspected.
    pose proof (Z.div_mod (width cloud) 2 ltac:(lia)) as Dw.
    pose proof (Z.mod_pos_bound (width cloud) 2 eq_refl) as Bw.
    pose proof (Z.div_mod (height cloud) 2 ltac:(lia)) as Dh.
    pose proof (Z.mod_pos_bound (height cloud) 2 eq_refl) as Bh.
    rewrite Nat2Z.inj_mul, !Z2Nat.id by lia.
    rewrite (Zmod_even (width cloud)) in Dw, Bw.
    rewrite (Zmod_even (height cloud)) in Dh, Bh.
    split.
    + intros Ew Eh. rewrite Ew in Dw. rewrite Eh in Dh. nia.
    + intros [Ew | Eh].
      * rewrite Ew in Dw. destruct (Z.even (height cloud)); nia.
      * rewrite Eh in Dh. destruct (Z.even (width cloud)); nia.
Qed.

(** *** The maximum depth *)

Lemma pos_compare_cont_Z (a b : positive) :
  Pos.compare_cont Eq a b = (Zpos a ?= Zpos b).
Proof. reflexivity. Qed.

Ltac compare_cases :=
  repeat match goal with
  | |- context [Z.compare ?a ?b] =>
      let C := fresh "C" in destruct (Z.compare_spec a b) as [C | C | C]
  | H : context [Z.compare ?a ?b] |- _ =>
      let C := fresh "C" in destruct (Z.compare_spec a b) as [C | C | C]
  end.

(** If [m < a] and not [m < b], then not [a < b]. *)
Lemma flt_chain (m a b : Fp.float) :
  flt m a = true -> flt m b = false -> flt a b = false.
Proof.
  unfold flt, SFltb, SFcompare.
  destruct m as [sm | sm | | sm mm em], a as [sa | sa | | sa ma ea],
    b as [sb | sb | | sb mb eb];
    try destruct sm; try destruct sa; try destruct sb;
    try reflexivity; try discriminate;
    rewrite ?pos_compare_cont_Z; intros H1 H2;
    compare_cases; simpl in *; try discriminate; try reflexivity; try lia.
Qed.

Lemma flt_irrefl (a : Fp.float) : flt a a = false.
Proof.
  unfold flt, SFltb, SFcompare.
  destruct a as [s | s | | s m e]; try destruct s; try reflexivity;
    rewrite ?pos_compare_cont_Z, !Z.compare_refl; reflexivity.
Qed.

Lemma visit_keeps_depth_invariant (pts : list PointT) (yx : Z * Z)
    (st st' : scan) :
  depth_invariant pts st ->
  visit_at pts yx st = Ok st' ->
  depth_invariant pts st' /\ it st' = S (it st).
Proof.
  intros [Hmax Hfrom] Hrun. unfold visit_at, visit in Hrun.
  destruct (nth_error pts (it st)) as [p |] eqn:Hp; [| discriminate].
  destruct (isFinite p) eqn:Hfin;
    [destruct (flt (maxDepth st) (point_z p)) eqn:Hlt |];
    inversion Hrun; subst; clear Hrun; simpl; (split; [| reflexivity]).
  - split; simpl.
    + intros i q Hi Hq Hq_fin.
      destruct (Nat.eq_dec i (it st)) as [-> | Hne].
      * rewrite Hp in Hq. inversion Hq; subst. apply flt_irrefl.
      * apply (flt_chain (maxDepth st)); [exact Hlt |].
        apply (Hmax i q); [lia | exact Hq | exact Hq_fin].
    + right. exists (it st), p. repeat split; [lia | exact Hp | exact Hfin].
  - split; simpl.
    + intros i q Hi Hq Hq_fin.
      destruct (Nat.eq_dec i (it st)) as [-> | Hne].
      * rewrite Hp in Hq. inversion Hq; subst. exact Hlt.
      * apply (Hmax i q); [lia | exact Hq | exact Hq_fin].
    + destruct Hfrom as [Hz | (i & q & Hi & Hq & Hqf & Hm)]; [left; exact Hz |].
      right. exists i, q. repeat split; try assumption. lia.
  - split; simpl.
    + intros i q Hi Hq Hq_fin.
      destruct (Nat.eq_dec i (it st)) as [-> | Hne].
      * rewrite Hp in Hq. inversion Hq; subst. congruence.
      * apply (Hmax i q); [lia | exact Hq | exact Hq_fin].
    + destruct Hfrom as [Hz | (i & q & Hi & Hq & Hqf & Hm)]; [left; exact Hz |].
      right. exists i, q. repeat split; try assumption. lia.
Qed.

Lemma scan_keeps_depth_invariant (pts : list PointT) (coords : list (Z * Z)) :
  forall st st' : scan,
    depth_invariant pts st ->
    for_each coords (visit_at pts) st = Ok st' ->
    depth_invariant pts st' /\ it st' = (it st + length coords)%nat.
Proof.
  induction coords as [| yx coords IH]; intros st st' Hinv Hrun.
  - inversion Hrun; subst. split; [exact Hinv | simpl; lia].
  - simpl in Hrun.
    destruct (visit_at pts yx st) as [st1 |] eqn:Hstep; [| discriminate].
    destruct (visit_keeps_depth_invariant pts yx st st1 Hinv Hstep)
      as [Hinv1 Hit1].
    destruct (IH st1 st' Hinv1 Hrun) as [Hinv' Hit'].
    split; [exact Hinv' | simpl; lia].
Qed.

(** X15.  The maximum depth that [analyzeOrganizedCloud] returns is not below
    the depth of any finite point among those it looks at, and it is
    either the initial 0 or the depth of one of these finite points. *)
Theorem analyzeOrganizedCloud_maxDepth (cloud : PointCloud PointT)
    (m f : Fp.float) :
  analyzeOrganizedCloud cloud = Ok (m, f) ->
  (forall (i : nat) (p : PointT),
      (i < inspected cloud)%nat ->
      nth_error (points cloud) i = Some p -> isFinite p = true ->
      flt m (point_z p) = false)
  /\
  (m = Fp.zero_f \/
   exists (i : nat) (p : PointT),
     (i < inspected cloud)%nat /\ nth_error (points cloud) i = Some p /\
     isFinite p = true /\ m = point_z p).
Proof.
  unfold analyzeOrganizedCloud. intros Hrun.
  destruct (negb ((1 <? width cloud) && (1 <? height cloud)));
    [discriminate |].
  destruct (negb (width cloud * height cloud
                  =? Z.of_nat (length (points cloud)))); [discriminate |].
  rewrite nested_loops_flat in Hrun.
  match type of Hrun with
  | bind (for_each ?coords ?body ?st0) _ = _ =>
      destruct (for_each coords body st0) as [st' |] eqn:Hloop;
        [| discriminate];
      assert (Hinit : depth_invariant (points cloud) st0)
        by (split; [intros i p Hi; simpl in Hi; lia | left; reflexivity]);
      destruct (scan_keeps_depth_invariant _ _ _ _ Hinit Hloop)
        as [[Hmax Hfrom] Hit]
  end.
  rewrite length_coordinates in Hit. simpl in Hit, Hrun.
  inversion Hrun; subst. rewrite Hit in Hmax, Hfrom.
  split; assumption.
Qed.

(** ** Header values and their four bytes *)

Lemma digits2_pos_size (p : positive) : digits2_pos p = Pos.size p.
Proof. induction p; simpl; congruence. Qed.

Lemma size_bounds (p : positive) :
  2 ^ (Zpos (Pos.size p) - 1) <= Zpos p < 2 ^ Zpos (Pos.size p).
Proof.
  pose proof (Pos.size_gt p) as Hgt. pose proof (Pos.size_le p) as Hle.
  apply Pos2Z.pos_lt_pos in Hgt. apply Pos2Z.pos_le_pos in Hle.
  rewrite Pos2Z.inj_pow in Hgt, Hle.
  change (Zpos 2) with 2 in Hle.
  split; [| exact Hgt].
  assert (E : 2 ^ Zpos (Pos.size p) = 2 * 2 ^ (Zpos (Pos.size p) - 1)).
  { rewrite <- Z.pow_succ_r by lia. f_equal. lia. }
  rewrite E in Hle. lia.
Qed.

Lemma float_of_bits_of_float (s : bool) (body : Z) :
  0 <= body < 2 ^ 31 ->
  Z.odd ((sign_bit s + body) / 2 ^ 31) = s /\
  ((sign_bit s + body) / 2 ^ 23) mod 2 ^ 8 = body / 2 ^ 23 /\
  (sign_bit s + body) mod 2 ^ 23 = body mod 2 ^ 23 /\
  to_uint32 (sign_bit s + body) = sign_bit s + body.
Proof.
  intros Hb. unfold to_uint32, sign_bit.
  change (2 ^ 31) with 2147483648 in *. change (2 ^ 23) with 8388608.
  change (2 ^ 8) with 256. change (2 ^ 32) with 4294967296.
  destruct s.
  - replace ((2147483648 + body) / 2147483648) with 1
      by (apply Z.div_unique with (r := body); lia).
    repeat split; try reflexivity; Z.div_mod_to_equations; lia.
  - rewrite Z.add_0_l.
    replace (body / 2147483648) with 0
      by (symmetry; apply Z.div_small; lia).
    repeat split; try reflexivity; Z.div_mod_to_equations; lia.
Qed.

(** A binary32 value comes back unchanged from its four bytes. *)
Lemma reload_valid (v : Fp.float) : Fp.is_float v -> reload v = v.
Proof.
  unfold Fp.is_float, reload. intros Hv.
  destruct v as [s | s | | s m e].
  - destruct s; reflexivity.
  - destruct s; reflexivity.
  - reflexivity.
  - simpl in Hv. unfold bounded, canonical_mantissa, fexp, emin in Hv.
    apply andb_prop in Hv. destruct Hv as [Hcanon Hmax].
    apply Z.eqb_eq in Hcanon. apply Z.leb_le in Hmax.
    rewrite digits2_pos_size in Hcanon.
    pose proof (size_bounds m) as Hsize.
    unfold Fp.float_prec, Fp.float_emax in *.
    unfold bits_of_float.
    destruct (Z.leb_spec (2 ^ 23) (Zpos m)) as [Hnormal | Hsub].
    + assert (Hd : Zpos (Pos.size m) = 24).
      { destruct (Z_lt_le_dec (Zpos (Pos.size m)) 24) as [Hlt | Hge].
        - exfalso.
          assert (2 ^ Zpos (Pos.size m) <= 2 ^ 23)
            by (apply Z.pow_le_mono_r; lia).
          lia.
        - lia. }
      rewrite Hd in Hsize. change (24 - 1) with 23 in Hsize.
      assert (He : -149 <= e <= 104) by lia.
      rewrite <- Z.add_assoc.
      destruct (float_of_bits_of_float s
                  ((e + 150) * 2 ^ 23 + (Zpos m - 2 ^ 23)))
        as (Hs & Hb & Hf & Hu).
      { change (2 ^ 23) with 8388608 in *. change (2 ^ 24) with 16777216 in *.
        change (2 ^ 31) with 2147483648. lia. }
      unfold float_of_bits. rewrite Hu. cbv zeta. rewrite Hs, Hb, Hf.
      change (2 ^ 23) with 8388608 in *. change (2 ^ 24) with 16777216 in *.
      replace (((e + 150) * 8388608 + (Zpos m - 8388608)) / 8388608)
        with (e + 150)
        by (apply Z.div_unique with (r := Zpos m - 8388608); lia).
      replace (((e + 150) * 8388608 + (Zpos m - 8388608)) mod 8388608)
        with (Zpos m - 8388608)
        by (apply Z.mod_unique with (q := e + 150); lia).
      replace (e + 150 =? 0) with false by (symmetry; apply Z.eqb_neq; lia).
      replace (e + 150 =? 255) with false by (symmetry; apply Z.eqb_neq; lia).
      replace (Zpos m - 8388608 + 8388608) with (Zpos m) by lia.
      f_equal. lia.
    + assert (He : e = -149).
      { destruct (Z_lt_le_dec (Zpos (Pos.size m)) 24) as [Hlt | Hge]; [lia |].
        exfalso.
        assert (2 ^ 23 <= 2 ^ (Zpos (Pos.size m) - 1))
          by (apply Z.pow_le_mono_r; lia).
        lia. }
      subst e.
      destruct (float_of_bits_of_float s (Zpos m)) as (Hs & Hb & Hf & Hu).
      { change (2 ^ 23) with 8388608 in *. change (2 ^ 31) with 2147483648.
        lia. }
      unfold float_of_bits. rewrite Hu. cbv zeta. rewrite Hs, Hb, Hf.
      change (2 ^ 23) with 8388608 in *.
      rewrite (Z.div_small (Zpos m)), (Z.mod_small (Zpos m)) by lia.
      reflexivity.
Qed.

(** ** A frame, written and read back *)

Lemma to_uint32_small (n : Z) : 0 <= n < 2 ^ 32 -> to_uint32 n = n.
Proof. intros H. unfold to_uint32. apply Z.mod_small, H. Qed.

Lemma length_uint32_bytes (n : Z) : length (uint32_bytes n) = 4%nat.
Proof. reflexivity. Qed.

Lemma length_float_bytes (v : Fp.float) : length (float_bytes v) = 4%nat.
Proof. reflexivity. Qed.

(** X16.  What [encodePointCloud] appends to the stream is a frame that
    [decodePointCloud] reads back: after bytes that differ from the first
    byte of the identifier, and before whatever follows, the decoder hands
    to the PNG decoder and to the conversion the very blocks, width and
    height that the encoder produced, with the three header values as they
    come back from their four bytes (unchanged, for binary32 values), and
    leaves the stream right after the frame.  The frame takes the identifier, 28 bytes of header and sizes,
    and the two compressed blocks.  The width, the height and the two block
    sizes must fit 32 bits. *)
Theorem decode_encode_frame (cloud old : PointCloud PointT)
    (before rest : list byte) (doColorEncoding : bool)
    (depthQuantization : Fp.float) (pngLevel : Z) (stats stats' : bool)
    (m f : Fp.float) :
  let images := convert_to_images cloud m depthQuantization in
  let disparity :=
    encodeMonoImageToPNG (fst images) (width cloud) (height cloud) pngLevel in
  let colour :=
    if hasColor && doColorEncoding
    then encodeRGBImageToPNG (snd images) (width cloud) (height cloud) pngLevel
    else [] in
  analyzeOrganizedCloud cloud = Ok (m, f) ->
  identifier <> [] ->
  Forall (fun b => b <> nth 0 identifier Byte.x00) before ->
  0 <= width cloud < 2 ^ 32 ->
  0 <= height cloud < 2 ^ 32 ->
  Z.of_nat (length disparity) < 2 ^ 32 ->
  Z.of_nat (length colour) < 2 ^ 32 ->
  exists frame : list byte,
    encodePointCloud cloud before doColorEncoding depthQuantization pngLevel
                     stats
    = Ok (before ++ frame)
    /\
    length frame
    = (length identifier + 28 + length disparity + length colour)%nat
    /\
    decodePointCloud (before ++ frame ++ rest) old stats'
    = Ok (convert_to_cloud (decodePNGToImage16 disparity)
                           (decodePNGToImage8 colour)
                           (width cloud) (height cloud)
                           (reload m) (reload depthQuantization) (reload f)
                           old,
          rest)
    /\
    (forall v : Fp.float, Fp.is_float v -> reload v = v).
Proof.
  intros images disparity colour Hanalyze Hid Hbefore Hw Hh Hd Hc.
  exists (identifier
          ++ uint32_bytes (width cloud) ++ uint32_bytes (height cloud)
          ++ float_bytes m ++ float_bytes f ++ float_bytes depthQuantization
          ++ uint32_bytes (Z.of_nat (length disparity)) ++ disparity
          ++ uint32_bytes (Z.of_nat (length colour)) ++ colour).
  split; [| split; [| split; [| exact reload_valid]]].
  - unfold encodePointCloud. rewrite Hanalyze. simpl bind.
    fold images. destruct images as [disparityData rgbData] eqn:Himages.
    simpl fst in disparity. simpl snd in colour.
    fold disparity. fold colour.
    rewrite !to_uint32_small by lia.
    rewrite <- !app_assoc. reflexivity.
  - rewrite !length_app, !length_uint32_bytes, !length_float_bytes. lia.
  - unfold decodePointCloud, then_.
    rewrite <- !app_assoc.
    rewrite (sync_skips_bytes before _ Hid Hbefore).
    rewrite uint32_of_uint32_bytes, (to_uint32_small _ Hw).
    rewrite uint32_of_uint32_bytes, (to_uint32_small _ Hh).
    rewrite read_float_of_float_bytes. cbv beta iota.
    rewrite read_float_of_float_bytes. cbv beta iota.
    rewrite read_float_of_float_bytes. cbv beta iota.
    rewrite uint32_of_uint32_bytes, to_uint32_small by lia. cbv beta iota.
    rewrite read_block_of_block. cbv beta iota.
    rewrite uint32_of_uint32_bytes, to_uint32_small by lia. cbv beta iota.
    rewrite read_block_of_block. cbv beta iota.
    reflexivity.
Qed.

End CodecProperties.
(** ** The theorems at work on the sample codec *)

Lemma sync_skips_to_frame_witness :
  @OrganizedCompression.sync_to_frame_header PointXYZ sample_externals 0
    ([Byte.x00; Byte.x50] ++ sample_identifier ++ [Byte.xff])
  = OrganizedCompression.Ok (tt, [Byte.xff]).
Proof.
  apply (@sync_skips_to_frame PointXYZ sample_externals
           [Byte.x00; Byte.x50] [Byte.xff]).
  - discriminate.
  - repeat constructor; discriminate.
Defined.

Lemma sync_stops_after_identifier_witness :
  exists skipped,
    [Byte.x3c; Byte.x3c] ++ sample_identifier ++ [Byte.xff]
    = skipped ++ sample_identifier ++ [Byte.xff].
Proof.
  apply (@sync_stops_after_identifier PointXYZ sample_externals
           ([Byte.x3c; Byte.x3c] ++ sample_identifier ++ [Byte.xff])
           [Byte.xff]).
  reflexivity.
Defined.

Lemma sync_finds_header_iff_witness :
  (exists rest,
      @OrganizedCompression.sync_to_frame_header PointXYZ sample_externals 0
        ([Byte.x3c; Byte.x50] ++ sample_identifier)
      = OrganizedCompression.Ok (tt, rest))
  <-> (exists skipped rest,
          [Byte.x3c; Byte.x50] ++ sample_identifier
          = skipped ++ sample_identifier ++ rest).
Proof.
  apply (@sync_finds_header_iff PointXYZ sample_externals
           ([Byte.x3c; Byte.x50] ++ sample_identifier)).
  - discriminate.
  - simpl. intros [H | [H | [H | [H | H]]]]; try discriminate H; exact H.
Defined.

Lemma analyzeOrganizedCloud_outcome_witness :
  exists m f,
    @OrganizedCompression.analyzeOrganizedCloud PointXYZ sample_traits
      sample_cloud
    = OrganizedCompression.Ok (m, f).
Proof.
  apply (proj1 (@analyzeOrganizedCloud_outcome PointXYZ sample_traits
                  sample_cloud)).
  simpl. repeat split; lia.
Defined.

Lemma analyzeOrganizedCloud_reads_prefix_witness :
  @OrganizedCompression.analyzeOrganizedCloud PointXYZ sample_traits
    (odd_cloud 7)
  = @OrganizedCompression.analyzeOrganizedCloud PointXYZ sample_traits
      (odd_cloud 1).
Proof.
  apply (proj1 (@analyzeOrganizedCloud_reads_prefix PointXYZ sample_traits
                  (odd_cloud 7) (odd_cloud 1))); reflexivity.
Defined.

Lemma analyzeOrganizedCloud_maxDepth_witness :
  OrganizedCompression.flt (Fp.int_to_float 3) (Fp.int_to_float 2) = false.
Proof.
  refine (proj1 (@analyzeOrganizedCloud_maxDepth PointXYZ sample_traits
                   sample_cloud (Fp.int_to_float 3) Fp.zero_f _)
                3%nat (point_at_depth 2) _ _ _).
  - reflexivity.
  - vm_compute. lia.
  - reflexivity.
  - reflexivity.
Defined.

Lemma decode_encode_frame_witness :
  exists frame,
    @OrganizedCompression.encodePointCloud PointXYZ sample_traits
      sample_externals sample_cloud [Byte.x00] true (Fp.int_to_float 1) 0 false
    = OrganizedCompression.Ok ([Byte.x00] ++ frame)
    /\
    length frame = (5 + 28 + 8 + 0)%nat
    /\
    @OrganizedCompression.decodePointCloud PointXYZ sample_externals
      ([Byte.x00] ++ frame ++ [Byte.xff]) sample_cloud false
    = OrganizedCompression.Ok
        (OrganizedCompression.mk_PointCloud 2 2
           (map (fun d => mk_vec3 Fp.zero_f Fp.zero_f
                                  (OrganizedCompression.float_of_bits d))
                [0; 0; 0; 0; 0; 0; 0; 0]),
         [Byte.xff]).
Proof.
  destruct (@decode_encode_frame PointXYZ sample_traits sample_externals
              sample_cloud sample_cloud [Byte.x00] [Byte.xff] true
              (Fp.int_to_float 1) 0 false false
              (Fp.int_to_float 3) Fp.zero_f)
    as (frame & Hencode & Hlength & Hdecode & _).
  - reflexivity.
  - discriminate.
  - repeat constructor; discriminate.
  - simpl; lia.
  - simpl; lia.
  - vm_compute; reflexivity.
  - vm_compute; reflexivity.
  - exists frame. split; [exact Hencode | split; [exact Hlength |]].
    rewrite Hdecode. reflexivity.
Defined.
